(** * duyet/logs maintenance scripts: a shallow embedding

    The repository holds three one-off Python scripts
    ([scripts/fix-all-lint.py], [scripts/fix-any-types.py] and
    [scripts/fix-unused-imports.py]).  Each one reads test files, rewrites
    their text with [re.sub], and writes the text back.

    The development has four layers:
    - [Re]: Python text (a sequence of code points), the part of the [re]
      module the scripts use (a backtracking matcher, [re.search],
      [re.sub]) and [str.replace] / [in];
    - [Rules]: the patterns and the three text transformations, one
      definition per source function;
    - [Fs]: paths, files, standard output and exceptions, as a state and
      error monad; the three module-level loops;
    - the properties. *)

From Stdlib Require Import NArith List String Ascii Bool Lia.
From stdpp Require Import gmap strings.

Local Open Scope N_scope.
Local Open Scope list_scope.

(** ** Python text and the [re] module *)

Module Re.

(** A Python [str] is a sequence of Unicode code points. *)
Abbreviation text := (list N).

(** [T "abc"] is the text of an ASCII literal. *)
Fixpoint T (s : string) : text :=
  match s with
  | EmptyString => []
  | String a s' => N_of_ascii a :: T s'
  end.

Definition nl : text := [10].
Definition dquote : N := 34.
Definition squote : N := 39.
Definition rbrace : N := 125.

(** *** [str] operations *)

(** [s.startswith(p)] *)
Fixpoint starts_with (p s : text) : bool :=
  match p, s with
  | [], _ => true
  | _ :: _, [] => false
  | a :: p', b :: s' => (a =? b) && starts_with p' s'
  end.

(** [p in s] *)
Fixpoint contains (p s : text) : bool :=
  starts_with p s ||
  match s with
  | [] => false
  | _ :: s' => contains p s'
  end.

(** [s.replace(old, new)] for a non-empty [old]: the occurrences of [old] are
    found from the left and do not overlap.  [skip] counts the characters of
    the occurrence in progress that are still to be dropped. *)
Fixpoint replace_from (old new : text) (skip : nat) (s : text) : text :=
  match s with
  | [] => []
  | a :: s' =>
      match skip with
      | S n => replace_from old new n s'
      | O =>
          if starts_with old s
          then new ++ replace_from old new (Nat.pred (length old)) s'
          else a :: replace_from old new O s'
      end
  end.

Definition str_replace (old new s : text) : text := replace_from old new O s.

(** *** Character sets *)

Inductive cset :=
| Is (c : N)            (* a literal character *)
| IsNot (c : N)         (* [^c] *)
| OneOf (cs : list N)   (* [...] *)
| Dot                   (* .  (no DOTALL flag: anything but a newline) *)
| Space                 (* \s *)
| AnyChar.              (* [\s\S] *)

(** [\s] on a [str] pattern: the Unicode white space characters. *)
Definition is_space (a : N) : bool :=
  ((9 <=? a) && (a <=? 13)) || ((28 <=? a) && (a <=? 32))
  || (a =? 133) || (a =? 160) || (a =? 5760)
  || ((8192 <=? a) && (a <=? 8202))
  || (a =? 8232) || (a =? 8233) || (a =? 8239) || (a =? 8287) || (a =? 12288).

Definition cset_mem (cs : cset) (a : N) : bool :=
  match cs with
  | Is c => c =? a
  | IsNot c => negb (c =? a)
  | OneOf l => existsb (N.eqb a) l
  | Dot => negb (a =? 10)
  | Space => is_space a
  | AnyChar => true
  end.

(** *** Patterns *)

Inductive regex :=
| Eps
| Chr (cs : cset)
| Seq (r1 r2 : regex)
| Alt (r1 r2 : regex)                          (* r1|r2, left first *)
| Group (n : nat) (r : regex)                  (* the n-th ( ... ) *)
| Repeat (lo : nat) (hi : option nat) (r : regex).  (* greedy r{lo,hi} *)

Declare Scope re_scope.
Delimit Scope re_scope with re.
Bind Scope re_scope with regex.
Infix "+>" := Seq (at level 41, right associativity) : re_scope.
Infix "</>" := Alt (at level 42, right associativity) : re_scope.

Fixpoint lit (t : text) : regex :=
  match t with
  | [] => Eps
  | a :: t' => Seq (Chr (Is a)) (lit t')
  end.

Definition star (r : regex) : regex := Repeat 0 None r.
Definition plus (r : regex) : regex := Repeat 1 None r.

(** *** Match objects *)

(** The groups that took part in a match, latest binding first; group 0 is the
    whole match. *)
Definition caps := list (nat * text).

Definition set_group (n : nat) (v : text) (c : caps) : caps := (n, v) :: c.

Fixpoint group (n : nat) (c : caps) : text :=
  match c with
  | [] => []
  | (m, v) :: c' => if Nat.eqb n m then v else group n c'
  end.

(** *** The matcher

    [re] is a backtracking matcher: alternatives are tried from the left,
    repetitions take as many iterations as they can and give them back one at a
    time.  [rmatch r s c k] matches [r] at the start of [s] and hands the rest
    of the text and the groups to the continuation [k]; the first success in
    backtracking order is the match.  An iteration of a repetition has to
    consume a character, so at most [length s] iterations can follow. *)

Definition cont := text -> caps -> option (text * caps).

Definition below (hi : option nat) (n : nat) : bool :=
  match hi with
  | None => true
  | Some h => Nat.ltb n h
  end.

Fixpoint rmatch (r : regex) (s : text) (c : caps) (k : cont)
  : option (text * caps) :=
  match r with
  | Eps => k s c
  | Chr cs =>
      match s with
      | a :: s' => if cset_mem cs a then k s' c else None
      | [] => None
      end
  | Seq r1 r2 => rmatch r1 s c (fun s' c' => rmatch r2 s' c' k)
  | Alt r1 r2 =>
      match rmatch r1 s c k with
      | Some m => Some m
      | None => rmatch r2 s c k
      end
  | Group n r1 =>
      rmatch r1 s c
        (fun s' c' =>
           k s' (set_group n (firstn (length s - length s') s) c'))
  | Repeat lo hi r1 =>
      (fix iter (fuel n : nat) (s : text) (c : caps) {struct fuel} :=
         match fuel with
         | O => if Nat.leb lo n then k s c else None
         | S fuel' =>
             if below hi n then
               match
                 rmatch r1 s c
                   (fun s' c' =>
                      if Nat.ltb (length s') (length s)
                      then iter fuel' (S n) s' c'
                      else None)
               with
               | Some m => Some m
               | None => if Nat.leb lo n then k s c else None
               end
             else if Nat.leb lo n then k s c else None
         end) (length s) O s c
  end.

(** [pattern.match(s)]: the rest of the text after the match and the match
    object.  With [adv] the match must not be empty. *)
Definition match_here (adv : bool) (r : regex) (s : text)
  : option (text * caps) :=
  rmatch r s []
    (fun s' c =>
       if adv && negb (Nat.ltb (length s') (length s)) then None
       else Some (s', set_group 0 (firstn (length s - length s') s) c)).

(** [re.search(r, s)] as a truth value. *)
Fixpoint search (r : regex) (s : text) : bool :=
  match match_here false r s with
  | Some _ => true
  | None =>
      match s with
      | [] => false
      | _ :: s' => search r s'
      end
  end.

(** *** Replacement *)

(** A replacement template: literal text and group references [\n]. *)
Inductive titem :=
| TLit (t : text)
| TRef (n : nat).

Fixpoint expand (tm : list titem) (c : caps) : text :=
  match tm with
  | [] => []
  | TLit t :: tm' => t ++ expand tm' c
  | TRef n :: tm' => group n c ++ expand tm' c
  end.

(** [re.sub(r, repl, s, count)]: the matches are found from the left and do not
    overlap; [count = 0] means no limit, otherwise at most [count] matches are
    replaced.  [n] is the number of replacements made so far.  After an empty
    match the next match at the same place must not be empty ([adv]). *)
Fixpoint sub_loop (fuel : nat) (r : regex) (repl : caps -> text)
  (count n : nat) (adv : bool) (s : text) : text :=
  match fuel with
  | O => s
  | S fuel' =>
      if negb (Nat.eqb count 0) && Nat.leb count n then s
      else
        match match_here adv r s with
        | Some (s', c) =>
            repl c ++
            sub_loop fuel' r repl count (S n)
              (negb (Nat.ltb (length s') (length s))) s'
        | None =>
            match s with
            | [] => []
            | a :: s' => a :: sub_loop fuel' r repl count n false s'
            end
        end
  end.

Definition sub_count (r : regex) (repl : caps -> text) (count : nat)
  (s : text) : text :=
  sub_loop (2 * length s + 2) r repl count 0 false s.

Definition sub (r : regex) (repl : caps -> text) (s : text) : text :=
  sub_count r repl 0 s.

End Re.

Import Re.

(** ** The patterns and the text transformations of the scripts *)

Module Rules.

Local Open Scope re_scope.

(** A rule is what one [re.sub] call is given: a pattern, a replacement (a
    template or a function of the match object) and a count. *)
Record rule := Rule {
  matcher : regex;
  replacement : caps -> text;
  limit : nat
}.

Definition apply_rule (content : text) (r : rule) : text :=
  sub_count (matcher r) (replacement r) (limit r) content.

(** [SuccessResponse|ErrorResponse|PingResponse] *)
Definition response_names : regex :=
  lit (T "SuccessResponse") </> lit (T "ErrorResponse")
  </> lit (T "PingResponse").

(** *** scripts/fix-all-lint.py *)

(** [import type \{ ([^}]+), (S|E|P)(, (S|E|P))*(, (S|E|P))* \}] *)
Definition lint_import_re : regex :=
  lit (T "import type { ")
  +> Group 1 (plus (Chr (IsNot rbrace)))
  +> lit (T ", ")
  +> Group 2 response_names
  +> star (Group 3 (lit (T ", ") +> Group 4 response_names))
  +> star (Group 5 (lit (T ", ") +> Group 6 response_names))
  +> lit (T " }").

(** [import type { \1 }] *)
Definition lint_import_repl : caps -> text :=
  expand [TLit (T "import type { "); TRef 1; TLit (T " }")].

(** [,\s*,] *)
Definition double_comma_re : regex :=
  lit (T ",") +> star (Chr Space) +> lit (T ",").

(** [,\s*\}] *)
Definition trailing_comma_re : regex :=
  lit (T ",") +> star (Chr Space) +> lit (T "}").

(** The text part of [remove_unused_imports]: three [re.sub] calls, each on
    the [content] the previous one left. *)
Definition remove_unused_imports_text (content : text) : text :=
  let content := sub lint_import_re lint_import_repl content in
  let content := sub double_comma_re (expand [TLit (T ",")]) content in
  let content := sub trailing_comma_re (expand [TLit (T " }")]) content in
  content.

(** The same three substitutions as a rule list. *)
Definition lint_rules : list rule :=
  [ Rule lint_import_re lint_import_repl 0;
    Rule double_comma_re (expand [TLit (T ",")]) 0;
    Rule trailing_comma_re (expand [TLit (T " }")]) 0 ].

(** *** scripts/fix-unused-imports.py *)

Definition unused_names : text :=
  T ", SuccessResponse, ErrorResponse, PingResponse".

(** The text part of the loop body: one [re.sub] with an empty replacement. *)
Definition fix_unused_imports_text (content : text) : text :=
  sub (lit unused_names) (expand []) content.

Definition unused_rules : list rule :=
  [ Rule (lit unused_names) (expand []) 0 ].

(** *** scripts/fix-any-types.py *)

(** The character class of the two quote characters. *)
Definition quote : regex := Chr (OneOf [squote; dquote]).

(** [(import type \{[^}]+\} from Q\.\.\/\.\.\/src\/types\/index\.js Q;)],
    where Q stands for the class of the two quote characters. *)
Definition import_pattern : regex :=
  Group 1
    (lit (T "import type {")
     +> plus (Chr (IsNot rbrace))
     +> lit (T "} from ")
     +> quote
     +> lit (T "../../src/types/index.js")
     +> quote
     +> lit (T ";")).

(** [lambda m: m.group(1).replace('} from', ', ... } from')] *)
Definition extend_import (m : caps) : text :=
  str_replace (T "} from")
    (T ", SuccessResponse, ErrorResponse, PingResponse } from")
    (group 1 m).

(** [(import .+ from Q.+Q;)\n], Q as above. *)
Definition any_import_re : regex :=
  Group 1
    (lit (T "import ")
     +> plus (Chr Dot)
     +> lit (T " from ")
     +> quote
     +> plus (Chr Dot)
     +> quote
     +> lit (T ";"))
  +> lit nl.

(** [\1\nimport type { ... } from '../../src/types/index.js';\n] *)
Definition new_import_repl : caps -> text :=
  expand
    [ TRef 1; TLit nl;
      TLit (T "import type { SuccessResponse, ErrorResponse, PingResponse } from '../../src/types/index.js';");
      TLit nl ].

(** The [if] at the head of [fix_any_types]. *)
Definition add_import (content : text) : text :=
  if negb (contains (T "SuccessResponse") content)
     && negb (contains (T "ErrorResponse") content)
  then
    if search import_pattern content
    then sub import_pattern extend_import content
    else sub_count any_import_re new_import_repl 1 content
  else content.

(** [(\(await res\.json\(\)\))] *)
Definition await_json : regex := Group 1 (lit (T "(await res.json())")).

(** [(\(await res\.json\(\)\)) as any;(\s+expect\(res\.status\)\.toBe\((...)\))] *)
Definition status_re (codes : regex) : regex :=
  await_json
  +> lit (T " as any;")
  +> Group 2
       (plus (Chr Space)
        +> lit (T "expect(res.status).toBe(")
        +> Group 3 codes
        +> lit (T ")")).

Definition error_re : regex :=
  status_re (lit (T "400") </> lit (T "404") </> lit (T "500")).

Definition success_re : regex :=
  status_re (lit (T "200") </> lit (T "201")).

(** [(\(await res\.json\(\)\)) as any;(\s+expect\(res\.status\)\.toBe\(200\);[\s\S]{0,50}status: 'ok')] *)
Definition ping_re : regex :=
  await_json
  +> lit (T " as any;")
  +> Group 2
       (plus (Chr Space)
        +> lit (T "expect(res.status).toBe(200);")
        +> Repeat 0 (Some 50%nat) (Chr AnyChar)
        +> lit (T "status: 'ok'")).

(** [\1 as X;\2] *)
Definition cast_to (ty : string) : caps -> text :=
  expand [TRef 1; TLit (T " as "); TLit (T ty); TLit (T ";"); TRef 2].

(** [\) as any;] *)
Definition as_any : text := T ") as any;".

Definition generic_cast : text := T ") as SuccessResponse | ErrorResponse;".

(** The text part of [fix_any_types]: the import step, then four [re.sub]
    calls, each on the [content] the previous one left. *)
Definition fix_any_types_text (content : text) : text :=
  let content := add_import content in
  let content := sub error_re (cast_to "ErrorResponse") content in
  let content := sub success_re (cast_to "SuccessResponse") content in
  let content := sub ping_re (cast_to "PingResponse") content in
  let content := sub (lit as_any) (expand [TLit generic_cast]) content in
  content.

(** The four [as any] substitutions as a rule list. *)
Definition any_rules : list rule :=
  [ Rule error_re (cast_to "ErrorResponse") 0;
    Rule success_re (cast_to "SuccessResponse") 0;
    Rule ping_re (cast_to "PingResponse") 0;
    Rule (lit as_any) (expand [TLit generic_cast]) 0 ].

(** Applying a rule list: every rule in list order, each on the text the
    previous one produced. *)
Definition apply_rules (rules : list rule) (content : text) : text :=
  fold_left apply_rule rules content.

End Rules.

Import Rules.


(** ** Files, output and exceptions *)

Module Fs.

Local Open Scope string_scope.

(** The exceptions [open], [read], [write] and [close] raise. *)
Inductive exn :=
| FileNotFoundError
| IsADirectoryError
| PermissionError
| UnicodeDecodeError
| OSError.

(** A file or directory.  A file has its read and write permissions, the room
    there is for what is written to it (the number of characters a write can
    store before it fails: the file size limit, the quota or the space that
    is left; [None] when there is no limit) and its contents: the text the
    bytes are in the encoding that is used, as it is on disk, or [None] when
    the bytes are not text. *)
Inductive node :=
| Dir
| File (readable writable : bool) (room : option nat) (data : option text).

(** The state a script runs in.  [names] gives the file or directory a path
    names, by its number; two paths can name the same one (a hard or symbolic
    link), and a path can name a number that no file has (a symbolic link to
    nothing).  [inodes] gives the file or directory of a number.  [stdout] is
    the lines printed so far, [writes] the log of the texts handed to a write
    so far, oldest first, and [linesep] is [os.linesep].  A path is the string
    the script holds for it; the paths the scripts list are in the form
    [Path] prints them in, so a path and its printed form are the same
    string. *)
Record world := World {
  names : gmap string nat;
  inodes : gmap nat node;
  stdout : list string;
  writes : list (string * text);
  linesep : text
}.

(** What each path names. *)
Definition files (w : world) : gmap string node :=
  omap (fun i => inodes w !! i) (names w).

Inductive outcome (A : Type) :=
| Ok (a : A)
| Raise (e : exn).
Arguments Ok {A} a.
Arguments Raise {A} e.

(** A computation returns a value or raises, and leaves a state. *)
Definition M (A : Type) : Type := world -> outcome A * world.

#[export] Instance M_ret : MRet M := fun A a w => (Ok a, w).

#[export] Instance M_bind : MBind M := fun A B f m w =>
  match m w with
  | (Ok a, w') => f a w'
  | (Raise e, w') => (Raise e, w')
  end.

(** [print(line)] *)
Definition print (line : string) : M unit := fun w =>
  (Ok tt, World (names w) (inodes w) (stdout w ++ [line]) (writes w)
            (linesep w)).

(** [Path(p).exists()] *)
Definition path_exists (p : string) : M bool := fun w =>
  (Ok (bool_decide (is_Some (files w !! p))), w).

(** Reading in text mode with the default [newline=None]: the end of a line
    in any of its three forms, a carriage return and a line feed, a carriage
    return alone or a line feed alone, is handed over as one line feed. *)
Fixpoint universal_newlines (d : text) : text :=
  match d with
  | [] => []
  | a :: d' =>
      if N.eqb a 13 then
        10 :: match d' with
              | [] => []
              | b :: d'' =>
                  if N.eqb b 10 then universal_newlines d''
                  else universal_newlines d'
              end
      else a :: universal_newlines d'
  end.

(** Writing in text mode with the default [newline=None]: every line feed
    is written as [os.linesep]. *)
Definition to_disk (sep t : text) : text :=
  flat_map (fun a => if N.eqb a 10 then sep else [a]) t.

(** [Path(p).read_text()], also [open(p, 'r')] followed by [f.read()]. *)
Definition read_text (p : string) : M text := fun w =>
  match files w !! p with
  | None => (Raise FileNotFoundError, w)
  | Some Dir => (Raise IsADirectoryError, w)
  | Some (File false _ _ _) => (Raise PermissionError, w)
  | Some (File true _ _ None) => (Raise UnicodeDecodeError, w)
  | Some (File true _ _ (Some d)) => (Ok (universal_newlines d), w)
  end.

(** Whether there is room for [d]. *)
Definition fits (room : option nat) (d : text) : bool :=
  match room with
  | None => true
  | Some k => Nat.leb (length d) k
  end.

(** What is stored of [d] when there is room for [room] characters. *)
Definition kept (room : option nat) (d : text) : text :=
  match room with
  | None => d
  | Some k => firstn k d
  end.

(** The write of [t] through [p] to the file number [i], which has been
    opened: the old contents are gone; what there is room for is stored, and
    the write or the close raises when that is not everything. *)
Definition write_into (i : nat) (r : bool) (room : option nat) (p : string)
  (t : text) : M unit := fun w =>
  let d := to_disk (linesep w) t in
  (if fits room d then Ok tt else Raise OSError,
   World (names w) (<[i := File r true room (Some (kept room d))]> (inodes w))
     (stdout w) (writes w ++ [(p, t)]) (linesep w)).

(** A number no file has and no path names. *)
Definition fresh_ino (w : world) : nat :=
  fresh (dom (inodes w) ∪ map_img (names w) : gset nat).

(** [Path(p).write_text(t)], also [open(p, 'w')] followed by [f.write(t)].
    [open] fails on a directory and on a file without write permission, and
    then nothing has changed; it creates the file when the path names
    nothing. *)
Definition write_text (p : string) (t : text) : M unit := fun w =>
  match names w !! p with
  | Some i =>
      match inodes w !! i with
      | Some Dir => (Raise IsADirectoryError, w)
      | Some (File _ false _ _) => (Raise PermissionError, w)
      | Some (File r true room _) => write_into i r room p t w
      | None => write_into i true None p t w
      end
  | None =>
      let i := fresh_ino w in
      write_into i true None p t
        (World (<[p := i]> (names w)) (inodes w) (stdout w) (writes w)
           (linesep w))
  end.

(** A [for] loop whose body has no [break]: an exception in the body leaves
    the loop. *)
Fixpoint for_each {A : Type} (body : A -> M unit) (l : list A) : M unit :=
  match l with
  | [] => mret tt
  | x :: l' => body x ;; for_each body l'
  end.

(** *** scripts/fix-all-lint.py *)

Definition remove_unused_imports (file_path : string) : M bool :=
  content ← read_text file_path;
  write_text file_path (remove_unused_imports_text content);;
  mret true.

Definition test_files : list string :=
  [ "test/e2e/endpoints.test.ts";
    "test/e2e/projects-api.test.ts";
    "test/e2e/analytics-api.test.ts";
    "test/unit/middleware/project-id.test.ts";
    "test/unit/middleware/logger.test.ts";
    "test/unit/adapters/base.test.ts";
    "test/unit/adapters/claude-code.test.ts";
    "test/unit/adapters/google-analytics.test.ts";
    "test/unit/services/analytics-query.test.ts";
    "test/unit/services/project.test.ts";
    "test/unit/services/analytics-engine.test.ts";
    "test/unit/utils/validation.test.ts" ].

(** The body of the module's loop. *)
Definition fix_all_lint_body (file_path : string) : M unit :=
  b ← path_exists file_path;
  if b : bool then
    remove_unused_imports file_path;;
    print ("Fixed: " +:+ file_path)
  else mret tt.

(** The module's loop over a list of targets, and the script. *)
Definition fix_all_lint_loop (targets : list string) : M unit :=
  for_each fix_all_lint_body targets.

Definition fix_all_lint_main (targets : list string) : M unit :=
  fix_all_lint_loop targets;;
  print "Done!".

Definition fix_all_lint : M unit := fix_all_lint_main test_files.

(** *** scripts/fix-any-types.py *)

Definition fix_any_types (file_path : string) : M unit :=
  content ← read_text file_path;
  write_text file_path (fix_any_types_text content);;
  print ("Fixed: " +:+ file_path).

(** The module's loop; [found] is what [test_dir.rglob('*.test.ts')] yields,
    in the order of the directory listing: every path under [test] whose name
    ends in [.test.ts], a directory of that name included. *)
Definition fix_any_types_loop (found : list string) : M unit :=
  for_each fix_any_types found.

Definition fix_any_types_main (found : list string) : M unit :=
  fix_any_types_loop found;;
  print "Done!".

(** *** scripts/fix-unused-imports.py *)

Definition files_to_fix : list string :=
  [ "test/unit/middleware/logger.test.ts";
    "test/unit/adapters/base.test.ts";
    "test/unit/adapters/google-analytics.test.ts";
    "test/unit/services/analytics-query.test.ts";
    "test/unit/services/project.test.ts";
    "test/unit/utils/validation.test.ts" ].

(** The body of the module's loop; [continue] ends the body. *)
Definition fix_unused_imports_body (file_path : string) : M unit :=
  b ← path_exists file_path;
  if negb b then
    print ("Skipping " +:+ file_path +:+ " (not found)")
  else
    content ← read_text file_path;
    write_text file_path (fix_unused_imports_text content);;
    print ("Fixed: " +:+ file_path).

Definition fix_unused_imports_loop (targets : list string) : M unit :=
  for_each fix_unused_imports_body targets.

Definition fix_unused_imports_main (targets : list string) : M unit :=
  fix_unused_imports_loop targets;;
  print "Done!".

Definition fix_unused_imports : M unit := fix_unused_imports_main files_to_fix.

End Fs.

Import Fs.

(** ** Statements about the scripts *)

Module Props.

Local Open Scope string_scope.

(** What a processing step would do if it compared the new text with the old
    one before writing: nothing is written when they are equal. *)
Definition skips_write_when_unchanged {A : Type}
  (process : string -> M A) (f : text -> text) : Prop :=
  forall (w : world) (p : string) (t : text),
    read_text p w = (Ok t, w) ->
    f t = t ->
    writes (snd (process p w)) = writes w.

(** What a loop would do if a failure of its body stayed with the target it
    happened on: the loop goes on with the targets that follow. *)
Definition failures_stay_local (body : string -> M unit) : Prop :=
  forall (w w' : world) (p : string) (rest : list string) (e : exn),
    body p w = (Raise e, w') ->
    for_each body (p :: rest) w = for_each body rest w'.

(** What a loop body would do if it reported a missing target. *)
Definition reports_missing (body : string -> M unit) : Prop :=
  forall (w : world) (p : string),
    files w !! p = None ->
    body p w
    = (Ok tt, World (names w) (inodes w)
                (stdout w ++ ["Skipping " +:+ p +:+ " (not found)"])
                (writes w) (linesep w)).

(** The three scripts, to state what they share. *)
Inductive script := FixAllLint | FixAnyTypes | FixUnusedImports.

Definition body_of (s : script) : string -> M unit :=
  match s with
  | FixAllLint => fix_all_lint_body
  | FixAnyTypes => fix_any_types
  | FixUnusedImports => fix_unused_imports_body
  end.

Definition main_of (s : script) : list string -> M unit :=
  match s with
  | FixAllLint => fix_all_lint_main
  | FixAnyTypes => fix_any_types_main
  | FixUnusedImports => fix_unused_imports_main
  end.

Definition text_of (s : script) : text -> text :=
  match s with
  | FixAllLint => remove_unused_imports_text
  | FixAnyTypes => fix_any_types_text
  | FixUnusedImports => fix_unused_imports_text
  end.

(** The world after one print. *)
Definition printed (line : string) (w : world) : world :=
  World (names w) (inodes w) (stdout w ++ [line]) (writes w) (linesep w).

(** The world after the write of [t] through [p], when [p] names a file:
    the file holds what there was room for, and the write is in the log. *)
Definition stored (p : string) (t : text) (w : world) : world :=
  match names w !! p with
  | Some i =>
      match inodes w !! i with
      | Some (File r _ room _) =>
          World (names w)
            (<[i := File r true room
                      (Some (kept room (to_disk (linesep w) t)))]> (inodes w))
            (stdout w) (writes w ++ [(p, t)]) (linesep w)
      | _ => w
      end
  | None => w
  end.

(** A file system for the examples: a file the rules leave alone, a
    directory, a file with a cast to rewrite and a link to it, a file with an
    import line that ends in a carriage return and a line feed, a file with
    room for five characters, a file with the two-name import line, and nothing
    else. *)
Definition plain : text := T "const x = 1;".
Definition cast_line : text := T "f(x) as any;".
Definition crlf_lines : text :=
  T "import a from 'b';" ++ [13; 10] ++ T "x".

Definition demo_names : gmap string nat :=
  <["test/plain.test.ts" := 1%nat]>
  (<["test/dir.test.ts" := 2%nat]>
  (<["test/cast.test.ts" := 3%nat]>
  (<["test/link.test.ts" := 3%nat]>
  (<["test/crlf.test.ts" := 4%nat]>
  (<["test/full.test.ts" := 5%nat]>
  (<["test/two.test.ts" := 6%nat]> ∅)))))).

Definition demo_inodes : gmap nat node :=
  <[1%nat := File true true None (Some plain)]>
  (<[2%nat := Dir]>
  (<[3%nat := File true true None (Some cast_line)]>
  (<[4%nat := File true true None (Some crlf_lines)]>
  (<[5%nat := File true true (Some 5%nat) (Some cast_line)]>
  (<[6%nat := File true true None
               (Some (T "import type { Foo, SuccessResponse, ErrorResponse } from 'x';"))]>
     ∅))))).

Definition demo : world := World demo_names demo_inodes [] [] nl.

(** The one-name and the two-name import lines. *)
Definition import_one : text :=
  T "import type { Foo, SuccessResponse } from 'x';".
Definition import_two : text :=
  T "import type { Foo, SuccessResponse, ErrorResponse } from 'x';".
Definition import_none : text :=
  T "import type { Foo } from 'x';".

Definition json_any : text :=
  T "const r = (await res.json()) as any;" ++ nl
  ++ T "expect(res.status).toBe(200);".
Definition json_success : text :=
  T "const r = (await res.json()) as SuccessResponse;" ++ nl
  ++ T "expect(res.status).toBe(200);".

(** The steps [re.sub] still has to make from a place: two for every
    character, one less once an empty match was seen there. *)
Definition steps_left (adv : bool) (s : text) : nat :=
  (2 * length s + (if adv then 0 else 1))%nat.


(** A path that names a text file the scripts can read and write, with no
    limit on what can be written to it. *)
Definition writable_in_full (w : world) (p : string) : Prop :=
  exists d : text, files w !! p = Some (File true true None (Some d)).

(** The lines the loops print for a target. *)
Definition fixed_line (p : string) : string := "Fixed: " +:+ p.
Definition skipping_line (p : string) : string :=
  "Skipping " +:+ p +:+ " (not found)".

(** [Path(p).exists()] in a world. *)
Definition present (w : world) (p : string) : bool :=
  bool_decide (is_Some (files w !! p)).

(** The lines a loop prints for a target that does not make it fail: the
    line for a rewritten file when the target exists; when it does not, the
    line [fix-unused-imports.py] prints and nothing in [fix-all-lint.py]. *)
Definition report_of (s : script) (w : world) (p : string) : list string :=
  if present w p then [fixed_line p]
  else match s with
       | FixUnusedImports => [skipping_line p]
       | _ => []
       end.

(** A target that does not make the loop of [s] fail: a text file that can
    be read and written, with room for all that is written, or, in the two
    scripts that ask [exists()] first, a path that names nothing. *)
Definition passes (s : script) (w : world) (p : string) : Prop :=
  writable_in_full w p \/ (files w !! p = None /\ s <> FixAnyTypes).

(** The texts a pattern can match, read off the pattern: what the matcher
    consumes is always one of them.  A repetition is read with its lower
    bound only. *)
Inductive matches : regex -> text -> Prop :=
| M_eps : matches Eps []
| M_chr (cs : cset) (a : N) : cset_mem cs a = true -> matches (Chr cs) [a]
| M_seq (r1 r2 : regex) (u1 u2 : text) :
    matches r1 u1 -> matches r2 u2 -> matches (Seq r1 r2) (u1 ++ u2)
| M_alt_l (r1 r2 : regex) (u : text) : matches r1 u -> matches (Alt r1 r2) u
| M_alt_r (r1 r2 : regex) (u : text) : matches r2 u -> matches (Alt r1 r2) u
| M_group (n : nat) (r : regex) (u : text) :
    matches r u -> matches (Group n r) u
| M_rep_done (hi : option nat) (r : regex) : matches (Repeat 0 hi r) []
| M_rep_more (lo : nat) (hi : option nat) (r : regex) (u1 u2 : text) :
    matches r u1 -> matches (Repeat (Nat.pred lo) hi r) u2 ->
    matches (Repeat lo hi r) (u1 ++ u2).

(** The numbers of the groups of a pattern. *)
Fixpoint groups (r : regex) : list nat :=
  match r with
  | Eps | Chr _ => []
  | Seq r1 r2 | Alt r1 r2 => groups r1 ++ groups r2
  | Group n r1 => n :: groups r1
  | Repeat _ _ r1 => groups r1
  end.

(** The groups a stretch of bindings sets are among [gs]. *)
Definition binds_within (gs : list nat) (ext : caps) : Prop :=
  forall (g : nat) (v : text), In (g, v) ext -> In g gs.

(** Every match of [r] lies in a text that holds [p]. *)
Definition needs (r : regex) (p : text) : Prop :=
  forall (s s' : text) (c : caps),
    match_here false r s = Some (s', c) -> contains p s = true.

(** The literal pieces of the cast patterns. *)
Definition await_text : text := T "(await res.json())".
Definition any_text : text := T " as any;".
Definition expect_text : text := T "expect(res.status).toBe(".

(** What follows [ as any;] in [status_re]. *)
Definition status_tail (codes : regex) : regex :=
  (plus (Chr Space) +> lit expect_text +> Group 3 codes +> lit (T ")"))%re.

(** A stretch of text in which no cast can start: it holds no [(a] and does
    not end in an opening parenthesis. *)
Fixpoint no_opening (x : text) : bool :=
  match x with
  | [] => true
  | a :: x' =>
      (negb (N.eqb a 40)
       || match x' with
          | [] => false
          | b :: _ => negb (N.eqb b 97)
          end)
      && no_opening x'
  end.

(** Every match of [r] starts with [(a]. *)
Definition opens (r : regex) : Prop :=
  forall (s s' : text) (c : caps),
    match_here false r s = Some (s', c) -> starts_with [40; 97] s = true.

(** The import line [fix_any_types] adds when a file has none for the
    response types. *)
Definition new_import_line : text :=
  T "import type { SuccessResponse, ErrorResponse, PingResponse } from '../../src/types/index.js';".

(** The inside of the group of [any_import_re]: an import statement on one
    line. *)
Definition import_statement : regex :=
  (lit (T "import ") +> plus (Chr Dot) +> lit (T " from ") +> quote
   +> plus (Chr Dot) +> quote +> lit (T ";"))%re.

(** The inside of the group of [import_pattern]. *)
Definition types_import : regex :=
  (lit (T "import type {") +> plus (Chr (IsNot rbrace)) +> lit (T "} from ")
   +> quote +> lit (T "../../src/types/index.js") +> quote
   +> lit (T ";"))%re.

Definition no_newline (g : text) : bool :=
  forallb (fun a => negb (N.eqb a 10)) g.

(** The exception a node makes a script raise before anything is written,
    if any: the first call that fails is the read, or the [open] of the
    write when the file can be read but not written. *)
Definition failure_of (n : node) : option exn :=
  match n with
  | Dir => Some IsADirectoryError
  | File false _ _ _ => Some PermissionError
  | File true _ _ None => Some UnicodeDecodeError
  | File true false _ (Some _) => Some PermissionError
  | File true true _ (Some _) => None
  end.

(** What a run may do to the file of a number: leave it as it is, or, when a
    target names it and it is a text file that can be read and written,
    replace its text. *)
Definition inode_kept (targets : list string) (w w' : world) (j : nat)
  : Prop :=
  inodes w' !! j = inodes w !! j
  \/ (exists (p : string) (room : option nat) (d d' : text),
        In p targets /\ names w !! p = Some j
        /\ inodes w !! j = Some (File true true room (Some d))
        /\ inodes w' !! j = Some (File true true room (Some d'))).

(** No two targets name the same file. *)
Definition no_alias (w : world) (targets : list string) : Prop :=
  forall (p1 p2 : string) (i : nat),
    In p1 targets -> In p2 targets ->
    names w !! p1 = Some i -> names w !! p2 = Some i -> p1 = p2.

(** The types [fix_any_types] gives a cast. *)
Definition cast_types : list text :=
  [ T "ErrorResponse"; T "SuccessResponse"; T "PingResponse";
    T "SuccessResponse | ErrorResponse" ].

(** [) as ty;] *)
Definition typed_cast (ty : text) : text := T ") as " ++ ty ++ T ";".

(** The texts the import step of [fix_any_types] puts in: the three names,
    in front of the closing brace of an import of the types, and a line feed
    with the new import line, in front of the line feed that ends an import
    statement. *)
Definition import_names : text :=
  T ", SuccessResponse, ErrorResponse, PingResponse ".

Definition import_texts : list text :=
  [ import_names; (nl ++ new_import_line)%list ].

(** The characters in front of which the import step puts a text in: a
    closing brace and a line feed. *)
Definition import_place (b : N) : bool := N.eqb b rbrace || N.eqb b 10.

(** [imports_added s o]: [o] is [s] with texts of the import step put in,
    each in front of a closing brace or a line feed, and every character
    kept. *)
Inductive imports_added : text -> text -> Prop :=
| IA_nil : imports_added [] []
| IA_keep (a : N) (s o : text) :
    imports_added s o -> imports_added (a :: s) (a :: o)
| IA_import (x : text) (b : N) (s o : text) :
    In x import_texts -> import_place b = true ->
    imports_added (b :: s) o -> imports_added (b :: s) (x ++ o).

(** [typed_from s o]: [o] is [s] with some occurrences of [) as any;]
    replaced by a typed cast, and every other character kept. *)
Inductive typed_from : text -> text -> Prop :=
| TF_nil : typed_from [] []
| TF_keep (a : N) (s o : text) :
    typed_from s o -> typed_from (a :: s) (a :: o)
| TF_cast (ty s o : text) :
    In ty cast_types -> typed_from s o ->
    typed_from (as_any ++ s) (typed_cast ty ++ o).

(** [all_typed s o]: [o] is [s] with every occurrence of [) as any;]
    replaced by a typed cast, and every other character kept. *)
Inductive all_typed : text -> text -> Prop :=
| AT_nil : all_typed [] []
| AT_keep (a : N) (s o : text) :
    starts_with as_any (a :: s) = false ->
    all_typed s o -> all_typed (a :: s) (a :: o)
| AT_cast (ty s o : text) :
    In ty cast_types -> all_typed s o ->
    all_typed (as_any ++ s) (typed_cast ty ++ o).

(** [casts_typed s o]: what [fix_any_types] makes of a text.  [o] is [s]
    with every occurrence of [) as any;] replaced by a typed cast, the texts
    of the import step put in, each in front of a closing brace or a line
    feed, and every other character kept, in the order of [s]. *)
Inductive casts_typed : text -> text -> Prop :=
| CT_nil : casts_typed [] []
| CT_keep (a : N) (s o : text) :
    starts_with as_any (a :: s) = false ->
    casts_typed s o -> casts_typed (a :: s) (a :: o)
| CT_cast (ty s o : text) :
    In ty cast_types -> casts_typed s o ->
    casts_typed (as_any ++ s) (typed_cast ty ++ o)
| CT_import (x : text) (b : N) (s o : text) :
    In x import_texts -> import_place b = true ->
    casts_typed (b :: s) o -> casts_typed (b :: s) (x ++ o).

(** What a run may do to what a path names: leave it as it is, or replace
    the text of a file that can be read and written, and nothing else of
    it. *)
Definition file_kept (w w' : world) (q : string) : Prop :=
  files w' !! q = files w !! q
  \/ (exists (room : option nat) (d d' : text),
        files w !! q = Some (File true true room (Some d))
        /\ files w' !! q = Some (File true true room (Some d'))).

(** *** The rule engine *)

(** C5: applying the rules of [remove_unused_imports] to the text
    [import type { Foo, SuccessResponse } from 'x';] gives exactly
    [import type { Foo } from 'x';]. *)
Theorem C5_one_name_removed :
  remove_unused_imports_text import_one = import_none.
Proof. vm_compute. reflexivity. Qed.

(** C6: [fix_any_types] turns the line
    [const r = (await res.json()) as any;] followed by a newline and
    [expect(res.status).toBe(200);] into the same text with [as any] replaced
    by [as SuccessResponse]; the [expect] line is as it was. *)
Theorem C6_success_cast :
  fix_any_types_text json_any = json_success.
Proof. vm_compute. reflexivity. Qed.

(** C3, at a failing input: on the import line with two response names, one
    pass of the rules of [remove_unused_imports] removes only the last name
    and a second pass removes the other, so the second pass changes the result
    of the first. *)
Theorem C3_not_idempotent :
  remove_unused_imports_text import_two = import_one
  /\ remove_unused_imports_text (remove_unused_imports_text import_two)
     = import_none
  /\ remove_unused_imports_text (remove_unused_imports_text import_two)
     <> remove_unused_imports_text import_two.
Proof. vm_compute. repeat split; discriminate. Qed.

(** Three commas in a row become two, then one. *)
Example commas_not_idempotent :
  remove_unused_imports_text (T ",,,") = T ",,"
  /\ remove_unused_imports_text (T ",,") = T ",".
Proof. vm_compute. split; reflexivity. Qed.

(** The third rule of [remove_unused_imports] works on what the second rule
    left, not on the original text. *)
Example later_rule_sees_earlier_output :
  remove_unused_imports_text (T "{ a, , }") = T "{ a }"
  /\ sub trailing_comma_re (expand [TLit (T " }")]) (T "{ a, , }")
     = T "{ a,  }".
Proof. vm_compute. split; reflexivity. Qed.

Lemma apply_rules_cons (r : rule) (rs : list rule) (t : text) :
  apply_rules (r :: rs) t = apply_rules rs (apply_rule t r).
Proof. reflexivity. Qed.

Lemma apply_rules_app (rs1 rs2 : list rule) (t : text) :
  apply_rules (rs1 ++ rs2) t = apply_rules rs2 (apply_rules rs1 t).
Proof. unfold apply_rules. apply fold_left_app. Qed.

(** C7: each script applies its rules in the order they are written, each
    rule to the output of the one before: the text transformations are the
    left-to-right composition of their [re.sub] calls, and applying a rule
    list is applying its head and then the rest to the result.  On the text
    [{ a, , }] the last rule of [remove_unused_imports] meets what the second
    rule left and the result is [{ a }]; on the original text it would have
    given [{ a,  }]. *)
Theorem C7_rules_in_order :
  (forall t : text, remove_unused_imports_text t = apply_rules lint_rules t)
  /\ (forall t : text,
        fix_any_types_text t = apply_rules any_rules (add_import t))
  /\ (forall t : text,
        fix_unused_imports_text t = apply_rules unused_rules t)
  /\ (forall (r : rule) (rs : list rule) (t : text),
        apply_rules (r :: rs) t = apply_rules rs (apply_rule t r))
  /\ (forall (rs1 rs2 : list rule) (t : text),
        apply_rules (rs1 ++ rs2) t = apply_rules rs2 (apply_rules rs1 t))
  /\ (apply_rules lint_rules (T "{ a, , }") = T "{ a }"
      /\ apply_rules (skipn 2 lint_rules) (T "{ a, , }") = T "{ a,  }").
Proof.
  split; [|split; [|split; [|split; [|split]]]].
  - intros t. reflexivity.
  - intros t. reflexivity.
  - intros t. reflexivity.
  - apply apply_rules_cons.
  - apply apply_rules_app.
  - vm_compute. split; reflexivity.
Qed.

(** C10: [fix_any_types] adds an import only when the text holds neither
    [SuccessResponse] nor [ErrorResponse]; when one of them is there, the
    import step returns the text as it is and the result is that of the four
    [as any] substitutions alone. *)
Theorem C10_import_only_when_absent (t : text) :
  contains (T "SuccessResponse") t || contains (T "ErrorResponse") t = true ->
  add_import t = t
  /\ fix_any_types_text t = apply_rules any_rules t.
Proof.
  intros H.
  assert (E : add_import t = t).
  { unfold add_import.
    destruct (contains (T "SuccessResponse") t),
             (contains (T "ErrorResponse") t); simpl in *;
      try reflexivity; discriminate. }
  split; [exact E|].
  change (fix_any_types_text t) with (apply_rules any_rules (add_import t)).
  rewrite E. reflexivity.
Qed.

Lemma C10_witness :
  contains (T "SuccessResponse") import_one
  || contains (T "ErrorResponse") import_one = true
  /\ add_import import_one = import_one
  /\ fix_any_types_text import_one = apply_rules any_rules import_one.
Proof.
  split; [vm_compute; reflexivity|].
  apply (C10_import_only_when_absent import_one). vm_compute. reflexivity.
Defined.

(** *** Calls *)

Lemma bind_ok {A B : Type} (m : M A) (f : A -> M B) (w w' : world) (a : A) :
  m w = (Ok a, w') -> (m ≫= f) w = f a w'.
Proof. intros H. unfold mbind, M_bind. rewrite H. reflexivity. Qed.

Lemma bind_raise {A B : Type} (m : M A) (f : A -> M B) (w w' : world)
  (e : exn) :
  m w = (Raise e, w') -> (m ≫= f) w = (Raise e, w').
Proof. intros H. unfold mbind, M_bind. rewrite H. reflexivity. Qed.

Lemma bind_inv_ok {A B : Type} (m : M A) (f : A -> M B) (w w' : world)
  (b : B) :
  (m ≫= f) w = (Ok b, w') ->
  exists (a : A) (w1 : world), m w = (Ok a, w1) /\ f a w1 = (Ok b, w').
Proof.
  unfold mbind, M_bind. destruct (m w) as [[a|e0] w1]; intros H.
  - exists a, w1. split; [reflexivity | exact H].
  - discriminate H.
Qed.

Lemma files_lookup (w : world) (p : string) :
  files w !! p = names w !! p ≫= (fun i => inodes w !! i).
Proof. unfold files. apply lookup_omap. Qed.

Lemma files_some (w : world) (p : string) (n : node) :
  files w !! p = Some n <->
  exists i : nat, names w !! p = Some i /\ inodes w !! i = Some n.
Proof.
  rewrite files_lookup. destruct (names w !! p) as [i|]; cbn.
  - split; [intros H; exists i; auto | intros (j & Hj & H); congruence].
  - split; [discriminate | intros (j & Hj & _); discriminate].
Qed.

Lemma path_exists_some (w : world) (p : string) (n : node) :
  files w !! p = Some n -> path_exists p w = (Ok true, w).
Proof.
  intros H. unfold path_exists. rewrite H.
  rewrite bool_decide_eq_true_2; [reflexivity | eauto].
Qed.

Lemma path_exists_none (w : world) (p : string) :
  files w !! p = None -> path_exists p w = (Ok false, w).
Proof.
  intros H. unfold path_exists. rewrite H.
  rewrite bool_decide_eq_false_2; [reflexivity|].
  intros [n Hn]. discriminate.
Qed.

Lemma read_text_ok (w : world) (p : string) (wr : bool) (room : option nat)
  (d : text) :
  files w !! p = Some (File true wr room (Some d)) ->
  read_text p w = (Ok (universal_newlines d), w).
Proof. intros H. unfold read_text. rewrite H. reflexivity. Qed.

(** A write through a path that names a writable file: the file holds what
    there was room for, and the call raises when that is not everything. *)
Lemma write_text_file (w : world) (p : string) (r : bool) (room : option nat)
  (old : option text) (t : text) :
  files w !! p = Some (File r true room old) ->
  write_text p t w
  = (if fits room (to_disk (linesep w) t) then Ok tt else Raise OSError,
     stored p t w).
Proof.
  intros H. apply files_some in H as (i & Hn & Hi).
  unfold write_text, stored, write_into. rewrite Hn, Hi. reflexivity.
Qed.

(** *** One target *)

(** A target that is a text file the script can read and write: the text is
    read with its line ends translated, transformed and written back; the
    line that says so is printed when all of it was written, and the write
    raises when it was not. *)
Lemma body_of_good (s : script) (w : world) (p : string)
  (room : option nat) (d : text) :
  files w !! p = Some (File true true room (Some d)) ->
  body_of s p w
  = if fits room (to_disk (linesep w) (text_of s (universal_newlines d)))
    then (Ok tt,
          printed (fixed_line p)
            (stored p (text_of s (universal_newlines d)) w))
    else (Raise OSError, stored p (text_of s (universal_newlines d)) w).
Proof.
  intros Hf.
  assert (Hrw : forall (B : Type) (f : text -> text) (k : M B),
            (content ← read_text p; write_text p (f content);; k) w
            = if fits room (to_disk (linesep w) (f (universal_newlines d)))
              then k (stored p (f (universal_newlines d)) w)
              else (Raise OSError, stored p (f (universal_newlines d)) w)).
  { intros B f k.
    rewrite (bind_ok _ _ _ _ _ (read_text_ok _ _ _ _ _ Hf)).
    pose proof (write_text_file w p true room (Some d)
                  (f (universal_newlines d)) Hf) as Hw.
    destruct (fits room (to_disk (linesep w) (f (universal_newlines d)))).
    - rewrite (bind_ok _ _ _ _ _ Hw). reflexivity.
    - rewrite (bind_raise _ _ _ _ _ Hw). reflexivity. }
  destruct s; cbn [body_of text_of].
  - unfold fix_all_lint_body.
    rewrite (bind_ok _ _ _ _ _ (path_exists_some _ _ _ Hf)).
    unfold remove_unused_imports.
    unfold mbind at 1, M_bind at 1. rewrite Hrw.
    destruct (fits room _); reflexivity.
  - unfold fix_any_types. rewrite Hrw.
    destruct (fits room _); reflexivity.
  - unfold fix_unused_imports_body.
    rewrite (bind_ok _ _ _ _ _ (path_exists_some _ _ _ Hf)). cbn [negb].
    rewrite Hrw. destruct (fits room _); reflexivity.
Qed.

Lemma remove_unused_imports_good (w : world) (p : string) (d : text) :
  files w !! p = Some (File true true None (Some d)) ->
  remove_unused_imports p w
  = (Ok true,
     stored p (remove_unused_imports_text (universal_newlines d)) w).
Proof.
  intros Hf. unfold remove_unused_imports.
  rewrite (bind_ok _ _ _ _ _ (read_text_ok _ _ _ _ _ Hf)).
  rewrite (bind_ok _ _ _ _ _
             (write_text_file w p true None (Some d) _ Hf)).
  reflexivity.
Qed.

Lemma read_write_fails {B : Type} (p : string) (f : text -> text) (k : M B)
  (w : world) (n : node) (e : exn) :
  files w !! p = Some n -> failure_of n = Some e ->
  (content ← read_text p; write_text p (f content);; k) w = (Raise e, w).
Proof.
  intros Hf He.
  destruct n as [|[] [] room [t|]]; cbn [failure_of] in He;
    try discriminate He; inversion He; subst e;
    try (apply bind_raise; unfold read_text; rewrite Hf; reflexivity).
  rewrite (bind_ok _ _ _ _ _ (read_text_ok _ _ _ _ _ Hf)).
  apply bind_raise. apply files_some in Hf as (i & Hn & Hi).
  unfold write_text. rewrite Hn, Hi. reflexivity.
Qed.

(** A target that exists and fails before anything is written. *)
Lemma body_of_failing (s : script) (p : string) (w : world) (n : node)
  (e : exn) :
  files w !! p = Some n -> failure_of n = Some e ->
  body_of s p w = (Raise e, w).
Proof.
  intros Hf He. destruct s; cbn [body_of].
  - unfold fix_all_lint_body.
    rewrite (bind_ok _ _ _ _ _ (path_exists_some _ _ _ Hf)).
    apply bind_raise. unfold remove_unused_imports.
    exact (read_write_fails p _ (mret true) w n e Hf He).
  - unfold fix_any_types. exact (read_write_fails p _ _ w n e Hf He).
  - unfold fix_unused_imports_body.
    rewrite (bind_ok _ _ _ _ _ (path_exists_some _ _ _ Hf)).
    cbn [negb]. exact (read_write_fails p _ _ w n e Hf He).
Qed.

Lemma fix_unused_imports_body_missing (w : world) (p : string) :
  files w !! p = None ->
  fix_unused_imports_body p w
  = (Ok tt, printed ("Skipping " +:+ p +:+ " (not found)") w).
Proof.
  intros Hnone. unfold fix_unused_imports_body.
  rewrite (bind_ok _ _ _ _ _ (path_exists_none _ _ Hnone)). reflexivity.
Qed.

Lemma fix_all_lint_body_missing (w : world) (p : string) :
  files w !! p = None -> fix_all_lint_body p w = (Ok tt, w).
Proof.
  intros Hnone. unfold fix_all_lint_body.
  rewrite (bind_ok _ _ _ _ _ (path_exists_none _ _ Hnone)). reflexivity.
Qed.

Lemma fix_any_types_missing (w : world) (p : string) :
  files w !! p = None -> fix_any_types p w = (Raise FileNotFoundError, w).
Proof.
  intros Hn. unfold fix_any_types. apply bind_raise.
  unfold read_text. rewrite Hn. reflexivity.
Qed.

Lemma node_cases (n : node) :
  (exists e : exn, failure_of n = Some e)
  \/ (exists (room : option nat) (d : text), n = File true true room (Some d)).
Proof.
  destruct n as [|[] [] room [d|]]; cbn [failure_of]; eauto.
Qed.

(** What a write through [p] leaves. *)
Lemma stored_file (w : world) (p : string) (i : nat) (r wr : bool)
  (room : option nat) (old : option text) (t : text) :
  names w !! p = Some i -> inodes w !! i = Some (File r wr room old) ->
  stored p t w
  = World (names w)
      (<[i := File r true room (Some (kept room (to_disk (linesep w) t)))]>
         (inodes w))
      (stdout w) (writes w ++ [(p, t)])%list (linesep w).
Proof. intros Hn Hi. unfold stored. rewrite Hn, Hi. reflexivity. Qed.

(** One target, whatever the outcome: the paths name what they named, and
    at most the file the target names has changed, from a text file that can
    be read and written to one with another text. *)
Lemma body_of_effect (s : script) (p : string) (w : world) :
  names (snd (body_of s p w)) = names w
  /\ linesep (snd (body_of s p w)) = linesep w
  /\ forall j : nat, inode_kept [p] w (snd (body_of s p w)) j.
Proof.
  assert (Hsame : forall w' : world,
            names w' = names w -> linesep w' = linesep w ->
            inodes w' = inodes w ->
            names w' = names w /\ linesep w' = linesep w
            /\ forall j : nat, inode_kept [p] w w' j).
  { intros w' Hn Hl Hi. split; [exact Hn|]. split; [exact Hl|].
    intros j. left. rewrite Hi. reflexivity. }
  destruct (files w !! p) as [n|] eqn:Hf.
  - destruct (node_cases n) as [[e He] | (room & d & ->)].
    + rewrite (body_of_failing s p w n e Hf He). apply Hsame; reflexivity.
    + rewrite (body_of_good s w p room d Hf).
      apply files_some in Hf as (i & Hn & Hi).
      assert (Hst : forall t : text,
                names (stored p t w) = names w
                /\ linesep (stored p t w) = linesep w
                /\ forall j : nat, inode_kept [p] w (stored p t w) j).
      { intros t. rewrite (stored_file w p i _ _ _ _ t Hn Hi).
        cbn [names linesep inodes]. split; [reflexivity|].
        split; [reflexivity|]. intros j.
        destruct (decide (j = i)) as [->|Hne].
        - right. exists p, room, d, (kept room (to_disk (linesep w) t)).
          split; [left; reflexivity|]. split; [exact Hn|].
          split; [exact Hi | apply lookup_insert_eq].
        - left. apply lookup_insert_ne. congruence. }
      destruct (fits room _); cbn [snd]; [|apply Hst].
      exact (Hst (text_of s (universal_newlines d))).
  - destruct s; cbn [body_of].
    + rewrite (fix_all_lint_body_missing w p Hf). apply Hsame; reflexivity.
    + rewrite (fix_any_types_missing w p Hf). apply Hsame; reflexivity.
    + rewrite (fix_unused_imports_body_missing w p Hf).
      apply Hsame; reflexivity.
Qed.

(** C1, as the scripts have it: a target that can be read and written is
    written back and reported as fixed in every case, whatever the rules did
    to its text, also when they left it as it was: the text handed to the
    write is the transformation of the text that was read, and the line that
    says the target is fixed is printed. *)
Theorem C1_always_writes (s : script) (w : world) (p : string) (d : text) :
  files w !! p = Some (File true true None (Some d)) ->
  body_of s p w
  = (Ok tt,
     printed (fixed_line p) (stored p (text_of s (universal_newlines d)) w))
  /\ writes (snd (body_of s p w))
     = (writes w ++ [(p, text_of s (universal_newlines d))])%list
  /\ stdout (snd (body_of s p w)) = (stdout w ++ ["Fixed: " +:+ p])%list
  /\ remove_unused_imports p w
     = (Ok true,
        stored p (remove_unused_imports_text (universal_newlines d)) w).
Proof.
  intros Hf. pose proof (body_of_good s w p None d Hf) as Hb.
  cbn [fits] in Hb. rewrite Hb. cbn [snd].
  split; [reflexivity|].
  split; [|split; [|exact (remove_unused_imports_good w p d Hf)]];
    apply files_some in Hf as (i & Hn & Hi);
    rewrite (stored_file w p i _ _ _ _ _ Hn Hi); reflexivity.
Qed.

Lemma C1_witness :
  files demo !! "test/plain.test.ts" = Some (File true true None (Some plain))
  /\ fix_any_types_text (universal_newlines plain) = plain
  /\ writes (snd (fix_any_types "test/plain.test.ts" demo))
     = [("test/plain.test.ts", plain)].
Proof.
  split; [vm_compute; reflexivity|]. split; [vm_compute; reflexivity|].
  destruct (C1_always_writes FixAnyTypes demo "test/plain.test.ts" plain)
    as (_ & H & _).
  - vm_compute. reflexivity.
  - exact H.
Defined.

(** C1, as the claim has it, fails: the rules of [remove_unused_imports]
    leave the text [const x = 1;] as it is, and the file is written all the
    same. *)
Lemma C1_counterexample :
  remove_unused_imports_text plain = plain
  /\ writes (snd (remove_unused_imports "test/plain.test.ts" demo))
     = [("test/plain.test.ts", plain)]
  /\ ~ skips_write_when_unchanged remove_unused_imports
        remove_unused_imports_text.
Proof.
  split; [vm_compute; reflexivity|].
  split; [vm_compute; reflexivity|].
  intros H.
  specialize (H demo "test/plain.test.ts" plain).
  assert (Hr : read_text "test/plain.test.ts" demo = (Ok plain, demo))
    by (vm_compute; reflexivity).
  assert (Hs : remove_unused_imports_text plain = plain)
    by (vm_compute; reflexivity).
  specialize (H Hr Hs). vm_compute in H. discriminate H.
Qed.

(** *** The loops *)

Lemma for_each_app {A : Type} (body : A -> M unit) (l1 l2 : list A)
  (w w1 : world) :
  for_each body l1 w = (Ok tt, w1) ->
  for_each body (l1 ++ l2)%list w = for_each body l2 w1.
Proof.
  revert w. induction l1 as [|x l1 IH]; intros w H; simpl in *.
  - unfold mret, M_ret in H. inversion H. reflexivity.
  - unfold mbind, M_bind in *.
    destruct (body x w) as [[[]|e] w0]; [|discriminate].
    apply IH. exact H.
Qed.

Lemma for_each_raise {A : Type} (body : A -> M unit) (x : A) (l : list A)
  (w w' : world) (e : exn) :
  body x w = (Raise e, w') -> for_each body (x :: l) w = (Raise e, w').
Proof. intros H. simpl. apply bind_raise. exact H. Qed.

Lemma main_of_unfold (s : script) (targets : list string) :
  main_of s targets = (for_each (body_of s) targets;; print "Done!").
Proof. destruct s; reflexivity. Qed.

(** The state a loop leaves is the state the body left at the target that
    raised, or the state the rest of the loop left. *)
Lemma for_each_snd {A : Type} (body : A -> M unit) (x : A) (l : list A)
  (w : world) :
  snd (for_each body (x :: l) w) = snd (body x w)
  \/ snd (for_each body (x :: l) w) = snd (for_each body l (snd (body x w))).
Proof.
  cbn [for_each]. unfold mbind, M_bind.
  destruct (body x w) as [[[]|e] w1]; cbn [snd]; [right | left]; reflexivity.
Qed.

(** C2, as the scripts have it: nothing catches a failure.  When the body of
    a script's loop raises on a target, after the targets before it went
    through, the exception leaves the loop and ends the whole run with that
    error, in the state the failing body left: no later target is processed
    and the closing line is not printed. *)
Theorem C2_failure_aborts (s : script) (pre rest : list string) (p : string)
  (w w1 w2 : world) (e : exn) :
  for_each (body_of s) pre w = (Ok tt, w1) ->
  body_of s p w1 = (Raise e, w2) ->
  main_of s (pre ++ p :: rest)%list w = (Raise e, w2).
Proof.
  intros Hpre Hp.
  rewrite main_of_unfold. apply bind_raise.
  rewrite (for_each_app _ _ _ _ _ Hpre).
  apply for_each_raise. exact Hp.
Qed.

Lemma C2_witness :
  exists w2 : world,
    fix_any_types_main
      ["test/plain.test.ts"; "test/full.test.ts"; "test/cast.test.ts"] demo
    = (Raise OSError, w2)
    /\ files w2 !! "test/full.test.ts"
       = Some (File true true (Some 5%nat) (Some (T "f(x) ")))
    /\ files w2 !! "test/cast.test.ts" = files demo !! "test/cast.test.ts".
Proof.
  eexists. split.
  - eapply (C2_failure_aborts FixAnyTypes ["test/plain.test.ts"]
              ["test/cast.test.ts"] "test/full.test.ts" demo).
    + vm_compute. reflexivity.
    + vm_compute. reflexivity.
  - split; vm_compute; reflexivity.
Defined.

(** C2, as the claim has it, fails: [fix_any_types] raises on a path that is
    a directory, the run ends there, and the file after it keeps its
    [as any]. *)
Lemma C2_counterexample :
  fix_any_types_main ["test/dir.test.ts"; "test/cast.test.ts"] demo
  = (Raise IsADirectoryError, demo)
  /\ ~ failures_stay_local fix_any_types.
Proof.
  split; [vm_compute; reflexivity|].
  intros H.
  specialize (H demo demo "test/dir.test.ts" ["test/cast.test.ts"]
                IsADirectoryError).
  assert (Hb : fix_any_types "test/dir.test.ts" demo
               = (Raise IsADirectoryError, demo))
    by (vm_compute; reflexivity).
  specialize (H Hb). apply (f_equal fst) in H.
  vm_compute in H. discriminate H.
Qed.

(** C4, as the scripts have it: a listed target that does not exist never
    stops a run.  [fix-unused-imports.py] prints a line that says it skips
    the target and goes on with the rest; [fix-all-lint.py] prints nothing
    for it and goes on with the rest. *)
Theorem C4_missing_is_skipped (p : string) (rest : list string) (w : world) :
  files w !! p = None ->
  fix_unused_imports_loop (p :: rest) w
  = fix_unused_imports_loop rest
      (printed ("Skipping " +:+ p +:+ " (not found)") w)
  /\ fix_all_lint_loop (p :: rest) w = fix_all_lint_loop rest w.
Proof.
  intros Hnone. split.
  - unfold fix_unused_imports_loop. cbn [for_each].
    rewrite (bind_ok _ _ _ _ _ (fix_unused_imports_body_missing _ _ Hnone)).
    reflexivity.
  - unfold fix_all_lint_loop. cbn [for_each].
    rewrite (bind_ok _ _ _ _ _ (fix_all_lint_body_missing _ _ Hnone)).
    reflexivity.
Qed.

Lemma C4_witness :
  files demo !! "test/missing.test.ts" = None
  /\ fix_unused_imports_loop ["test/missing.test.ts"; "test/plain.test.ts"]
       demo
     = fix_unused_imports_loop ["test/plain.test.ts"]
         (printed "Skipping test/missing.test.ts (not found)" demo).
Proof.
  split; [vm_compute; reflexivity|].
  refine (proj1 (C4_missing_is_skipped "test/missing.test.ts"
                   ["test/plain.test.ts"] demo _)).
  vm_compute. reflexivity.
Defined.

(** C4, as the claim has it, fails: [fix-all-lint.py] reports nothing for a
    listed target that does not exist. *)
Lemma C4_counterexample :
  fix_all_lint_body "test/missing.test.ts" demo = (Ok tt, demo)
  /\ ~ reports_missing fix_all_lint_body.
Proof.
  split; [vm_compute; reflexivity|].
  intros H. specialize (H demo "test/missing.test.ts").
  assert (Hn : files demo !! "test/missing.test.ts" = None)
    by (vm_compute; reflexivity).
  specialize (H Hn). apply (f_equal (fun r => stdout (snd r))) in H.
  vm_compute in H. discriminate H.
Qed.


(** *** What a run does to the file system *)

Lemma inode_kept_weaken (ts ts' : list string) (w w' : world) (j : nat) :
  (forall p : string, In p ts -> In p ts') ->
  inode_kept ts w w' j -> inode_kept ts' w w' j.
Proof.
  intros Hsub [H | (p & room & d & d' & Hin & H)]; [left; exact H|].
  right. exists p, room, d, d'. split; [exact (Hsub p Hin) | exact H].
Qed.

Lemma inode_kept_trans (ts1 ts2 : list string) (w1 w2 w3 : world) (j : nat) :
  names w2 = names w1 ->
  inode_kept ts1 w1 w2 j -> inode_kept ts2 w2 w3 j ->
  inode_kept (ts1 ++ ts2)%list w1 w3 j.
Proof.
  intros Hn [H12 | (p & room & d & d' & Hin & Hp & Hd & Hd')]
    [H23 | (p2 & room2 & d2 & d2' & Hin2 & Hp2 & Hd2 & Hd2')].
  - left. congruence.
  - right. exists p2, room2, d2, d2'.
    split; [apply in_or_app; right; exact Hin2|].
    split; [congruence|]. split; [congruence | exact Hd2'].
  - right. exists p, room, d, d'.
    split; [apply in_or_app; left; exact Hin|].
    split; [exact Hp|]. split; [exact Hd | congruence].
  - right. exists p, room, d, d2'.
    split; [apply in_or_app; left; exact Hin|].
    split; [exact Hp|]. split; [exact Hd|].
    rewrite Hd' in Hd2. inversion Hd2; subst. exact Hd2'.
Qed.

Lemma loop_effect (s : script) (targets : list string) :
  forall w : world,
    names (snd (for_each (body_of s) targets w)) = names w
    /\ linesep (snd (for_each (body_of s) targets w)) = linesep w
    /\ forall j : nat,
         inode_kept targets w (snd (for_each (body_of s) targets w)) j.
Proof.
  induction targets as [|p l IH]; intros w.
  - cbn. split; [reflexivity|]. split; [reflexivity|].
    intros j. left. reflexivity.
  - destruct (body_of_effect s p w) as (Hn & Hl & Hk).
    destruct (for_each_snd (body_of s) p l w) as [-> | ->].
    + split; [exact Hn|]. split; [exact Hl|]. intros j.
      eapply inode_kept_weaken; [|exact (Hk j)].
      intros q [<-|[]]. left. reflexivity.
    + destruct (IH (snd (body_of s p w))) as (Hn' & Hl' & Hk').
      split; [congruence|]. split; [congruence|]. intros j.
      exact (inode_kept_trans [p] l _ _ _ j Hn (Hk j) (Hk' j)).
Qed.

Lemma main_of_snd (s : script) (targets : list string) (w : world) :
  names (snd (main_of s targets w))
  = names (snd (for_each (body_of s) targets w))
  /\ inodes (snd (main_of s targets w))
     = inodes (snd (for_each (body_of s) targets w))
  /\ linesep (snd (main_of s targets w))
     = linesep (snd (for_each (body_of s) targets w)).
Proof.
  rewrite main_of_unfold. unfold mbind, M_bind.
  destruct (for_each (body_of s) targets w) as [[[]|e] w1];
    repeat split; reflexivity.
Qed.

Lemma main_effect (s : script) (targets : list string) (w : world) :
  names (snd (main_of s targets w)) = names w
  /\ linesep (snd (main_of s targets w)) = linesep w
  /\ forall j : nat, inode_kept targets w (snd (main_of s targets w)) j.
Proof.
  destruct (loop_effect s targets w) as (Hn & Hl & Hk).
  destruct (main_of_snd s targets w) as (Hn' & Hi' & Hl').
  split; [congruence|]. split; [congruence|].
  intros j. unfold inode_kept. rewrite Hi'. exact (Hk j).
Qed.

(** A file no target names is as it was. *)
Lemma frame_of (ts : list string) (w w' : world) (q : string) :
  names w' = names w -> (forall j : nat, inode_kept ts w w' j) ->
  (forall (p : string) (i : nat),
     In p ts -> names w !! p = Some i -> names w !! q <> Some i) ->
  files w' !! q = files w !! q.
Proof.
  intros Hn Hk Hq. rewrite !files_lookup, Hn.
  destruct (names w !! q) as [j|] eqn:Ej; cbn; [|reflexivity].
  destruct (Hk j) as [H | (p & room & d & d' & Hin & Hp & _)]; [exact H|].
  destruct (Hq p j Hin Hp). reflexivity.
Qed.

Lemma file_kept_of (ts : list string) (w w' : world) (q : string) :
  names w' = names w -> (forall j : nat, inode_kept ts w w' j) ->
  file_kept w w' q.
Proof.
  intros Hn Hk. unfold file_kept. rewrite !files_lookup, Hn.
  destruct (names w !! q) as [j|] eqn:Ej; cbn; [|left; reflexivity].
  destruct (Hk j) as [H | (p & room & d & d' & _ & _ & H1 & H2)];
    [left; exact H|].
  right. exists room, d, d'. split; assumption.
Qed.

(** X1: a run changes no file but those its targets name.  After the whole
    script, whether it ended normally or with an exception, a path that
    names a file no target names, under whatever name, names what it named
    before; so does a path that names nothing. *)
Theorem X1_other_files_untouched (s : script) (targets : list string)
  (w : world) (q : string) :
  (forall (p : string) (i : nat),
     In p targets -> names w !! p = Some i -> names w !! q <> Some i) ->
  files (snd (main_of s targets w)) !! q = files w !! q.
Proof.
  intros Hq. destruct (main_effect s targets w) as (Hn & _ & Hk).
  exact (frame_of targets w _ q Hn Hk Hq).
Qed.

Lemma X1_witness :
  files (snd (fix_any_types_main ["test/cast.test.ts"] demo))
    !! "test/plain.test.ts"
  = files demo !! "test/plain.test.ts"
  /\ files (snd (fix_any_types_main ["test/cast.test.ts"] demo))
       !! "test/link.test.ts"
     <> files demo !! "test/link.test.ts".
Proof.
  split.
  - apply (X1_other_files_untouched FixAnyTypes ["test/cast.test.ts"] demo
             "test/plain.test.ts").
    intros p i [<-|[]] Hp. vm_compute in Hp. inversion Hp; subst i.
    intros H. vm_compute in H. discriminate H.
  - intros H. vm_compute in H. discriminate H.
Defined.


(** *** The report of a run *)

Lemma present_kept (w w' : world) (q : string) :
  file_kept w w' q -> present w' q = present w q.
Proof.
  unfold present. intros [-> | (room & d & d' & H1 & H2)]; [reflexivity|].
  rewrite H1, H2. rewrite !bool_decide_eq_true_2 by eauto. reflexivity.
Qed.

Lemma passes_kept (s : script) (w w' : world) (q : string) :
  file_kept w w' q -> passes s w q -> passes s w' q.
Proof.
  intros [Heq | (room & d & d' & H1 & H2)] [[t Ht] | [Hn Hs]].
  - left. exists t. rewrite Heq. exact Ht.
  - right. split; [rewrite Heq; exact Hn | exact Hs].
  - left. exists d'. rewrite Ht in H1. inversion H1; subst. exact H2.
  - rewrite Hn in H1. discriminate H1.
Qed.

Lemma report_of_kept (s : script) (w w' : world) (q : string) :
  file_kept w w' q -> report_of s w' q = report_of s w q.
Proof.
  intros H. unfold report_of. rewrite (present_kept _ _ _ H). reflexivity.
Qed.

Lemma present_some (w : world) (p : string) (n : node) :
  files w !! p = Some n -> present w p = true.
Proof.
  intros Hn. unfold present. rewrite Hn. apply bool_decide_eq_true_2. eauto.
Qed.

Lemma present_none (w : world) (p : string) :
  files w !! p = None -> present w p = false.
Proof.
  intros Hn. unfold present. rewrite Hn.
  apply bool_decide_eq_false_2. intros [n Hn']. discriminate.
Qed.

(** One target that passes. *)
Lemma body_of_passes (s : script) (w : world) (p : string) :
  passes s w p ->
  exists w' : world,
    body_of s p w = (Ok tt, w')
    /\ stdout w' = (stdout w ++ report_of s w p)%list
    /\ map fst (writes w')
       = (map fst (writes w) ++ (if present w p then [p] else []))%list.
Proof.
  intros [[d Hd] | [Hn Hs]].
  - pose proof (body_of_good s w p None d Hd) as Hb. cbn [fits] in Hb.
    eexists. split; [exact Hb|].
    unfold report_of. rewrite (present_some w p _ Hd).
    apply files_some in Hd as (i & Hi & Hj).
    rewrite (stored_file w p i _ _ _ _ _ Hi Hj).
    cbn [printed stdout writes]. split; [reflexivity|].
    rewrite map_app. reflexivity.
  - unfold report_of. rewrite (present_none w p Hn).
    destruct s; cbn [body_of]; [| destruct (Hs eq_refl) |].
    + exists w. split; [apply fix_all_lint_body_missing; exact Hn|].
      rewrite !app_nil_r. split; reflexivity.
    + eexists. split; [apply fix_unused_imports_body_missing; exact Hn|].
      cbn [printed stdout writes]. rewrite app_nil_r. split; reflexivity.
Qed.

Lemma loop_report (s : script) (targets : list string) :
  forall w : world,
    Forall (passes s w) targets ->
    exists w' : world,
      for_each (body_of s) targets w = (Ok tt, w')
      /\ stdout w' = (stdout w ++ concat (map (report_of s w) targets))%list
      /\ map fst (writes w')
         = (map fst (writes w)
            ++ filter (fun p => present w p = true) targets)%list.
Proof.
  induction targets as [|p l IH]; intros w Hall.
  - exists w. cbn. rewrite !app_nil_r. auto.
  - inversion Hall as [|? ? Hp Hl]; subst.
    destruct (body_of_passes s w p Hp) as (w1 & Hb & Ho & Hw).
    assert (Hk : forall q, file_kept w w1 q).
    { intros q. destruct (body_of_effect s p w) as (Hn & _ & Hk).
      rewrite Hb in Hn, Hk. cbn [snd] in Hn, Hk.
      exact (file_kept_of [p] w w1 q Hn Hk). }
    destruct (IH w1) as (w' & Hrun & Ho' & Hw').
    { eapply Forall_impl; [exact Hl|]. intros q Hq.
      exact (passes_kept _ _ _ _ (Hk q) Hq). }
    exists w'. split; [|split].
    + cbn [for_each]. rewrite (bind_ok _ _ _ _ _ Hb). exact Hrun.
    + rewrite Ho', Ho. cbn [map concat]. rewrite <- app_assoc.
      do 2 f_equal. f_equal. apply map_ext. intros q.
      apply report_of_kept, Hk.
    + rewrite Hw', Hw. rewrite <- app_assoc. f_equal.
      rewrite filter_cons.
      assert (Hfl : filter (fun q => present w1 q = true) l
                    = filter (fun q => present w q = true) l).
      { apply list_filter_iff. intros q. rewrite (present_kept _ _ _ (Hk q)).
        reflexivity. }
      rewrite Hfl.
      destruct (present w p); [|reflexivity].
      destruct (decide (true = true)); [reflexivity | congruence].
Qed.

(** X3: the report of a run in which no target fails.  When every target is
    a readable and writable text file with no limit on what can be written
    to it, or names nothing in one of the two scripts that ask [exists()]
    first, the script ends normally; it has printed, target by target and in
    list order, the [Fixed:] line of a target that exists, the [Skipping]
    line of a missing one in [fix-unused-imports.py] and nothing for it in
    [fix-all-lint.py], then [Done!]; and it has written the targets that
    exist, once each, in list order. *)
Theorem X3_report_of_a_clean_run (s : script) (targets : list string)
  (w : world) :
  Forall (passes s w) targets ->
  exists w' : world,
    main_of s targets w = (Ok tt, w')
    /\ stdout w'
       = (stdout w ++ concat (map (report_of s w) targets) ++ ["Done!"])%list
    /\ map fst (writes w')
       = (map fst (writes w)
          ++ filter (fun p => present w p = true) targets)%list.
Proof.
  intros Hall. destruct (loop_report s targets w Hall) as (w1 & Hrun & Ho & Hw).
  exists (printed "Done!" w1). split; [|split].
  - rewrite main_of_unfold. rewrite (bind_ok _ _ _ _ _ Hrun). reflexivity.
  - cbn [printed stdout]. rewrite Ho, <- app_assoc. reflexivity.
  - exact Hw.
Qed.

Lemma X3_witness :
  exists w' : world,
    fix_unused_imports_main ["test/missing.test.ts"; "test/plain.test.ts"] demo
    = (Ok tt, w')
    /\ stdout w'
       = ["Skipping test/missing.test.ts (not found)";
          "Fixed: test/plain.test.ts"; "Done!"]
    /\ map fst (writes w') = ["test/plain.test.ts"].
Proof.
  apply (X3_report_of_a_clean_run FixUnusedImports
           ["test/missing.test.ts"; "test/plain.test.ts"] demo).
  constructor; [|constructor; [|constructor]].
  - right. split; [vm_compute; reflexivity | discriminate].
  - left. exists plain. vm_compute. reflexivity.
Defined.

(** *** The contents of the files after a run *)

Lemma kept_fits (room : option nat) (d : text) :
  fits room d = true -> kept room d = d.
Proof.
  destruct room as [k|]; cbn [fits kept]; [|reflexivity].
  intros H. apply Nat.leb_le in H. apply firstn_all2. exact H.
Qed.

Lemma stored_files_self (w : world) (p : string) (r : bool)
  (room : option nat) (old : option text) (t : text) :
  files w !! p = Some (File r true room old) ->
  files (stored p t w) !! p
  = Some (File r true room (Some (kept room (to_disk (linesep w) t)))).
Proof.
  intros H. apply files_some in H as (i & Hn & Hi).
  rewrite (stored_file w p i _ _ _ _ t Hn Hi). apply files_some.
  exists i. cbn [names inodes]. split; [exact Hn | apply lookup_insert_eq].
Qed.

Lemma linesep_stored (w : world) (p : string) (t : text) :
  linesep (stored p t w) = linesep w.
Proof.
  unfold stored. destruct (names w !! p) as [i|]; [|reflexivity].
  destruct (inodes w !! i) as [[|r wr room old]|]; reflexivity.
Qed.

(** One target that goes through: the file holds the transformed text. *)
Lemma body_of_ok_file (s : script) (w w' : world) (p : string)
  (room : option nat) (d : text) :
  files w !! p = Some (File true true room (Some d)) ->
  body_of s p w = (Ok tt, w') ->
  files w' !! p
  = Some (File true true room
            (Some (to_disk (linesep w) (text_of s (universal_newlines d))))).
Proof.
  intros Hf Hb. rewrite (body_of_good s w p room d Hf) in Hb.
  destruct (fits room _) eqn:Hfit; [|discriminate Hb].
  inversion Hb; subst w'.
  change (files (printed (fixed_line p)
                   (stored p (text_of s (universal_newlines d)) w)))
    with (files (stored p (text_of s (universal_newlines d)) w)).
  rewrite (stored_files_self w p true room (Some d) _ Hf).
  rewrite (kept_fits _ _ Hfit). reflexivity.
Qed.

Lemma no_alias_tail (w w1 : world) (x : string) (l : list string) :
  names w1 = names w -> no_alias w (x :: l) -> no_alias w1 l.
Proof.
  intros Hn Hna p1 p2 i H1 H2 Hp1 Hp2. rewrite Hn in Hp1, Hp2.
  apply (Hna p1 p2 i); [right; exact H1 | right; exact H2 | exact Hp1
                        | exact Hp2].
Qed.

Lemma loop_rewrites_once (s : script) (targets : list string) :
  forall (w w' : world) (p : string) (room : option nat) (d : text),
    NoDup targets -> no_alias w targets ->
    for_each (body_of s) targets w = (Ok tt, w') ->
    In p targets ->
    files w !! p = Some (File true true room (Some d)) ->
    files w' !! p
    = Some (File true true room
              (Some (to_disk (linesep w) (text_of s (universal_newlines d))))).
Proof.
  induction targets as [|x l IH]; intros w w' p room d Hnd Hna Hrun Hin Hf;
    [destruct Hin|].
  apply NoDup_cons in Hnd as [Hx Hnd].
  cbn [for_each] in Hrun.
  apply bind_inv_ok in Hrun as ([] & w1 & Hb & Hrun).
  destruct (body_of_effect s x w) as (Hn & Hl & Hk).
  rewrite Hb in Hn, Hl, Hk. cbn [snd] in Hn, Hl, Hk.
  destruct (decide (p = x)) as [->|Hne].
  - destruct (loop_effect s l w1) as (Hn' & _ & Hk').
    rewrite Hrun in Hn', Hk'. cbn [snd] in Hn', Hk'.
    rewrite (frame_of l w1 w' x Hn' Hk').
    + exact (body_of_ok_file s w w1 x room d Hf Hb).
    + intros p' i Hin' Hp' Hxi. rewrite Hn in Hp', Hxi.
      assert (E : p' = x).
      { apply (Hna p' x i); [right; exact Hin' | left; reflexivity
                            | exact Hp' | exact Hxi]. }
      subst p'. apply Hx. apply list_elem_of_In. exact Hin'.
  - destruct Hin as [->|Hin]; [congruence|].
    rewrite <- Hl.
    apply (IH w1 w' p room d Hnd (no_alias_tail w w1 x l Hn Hna) Hrun Hin).
    rewrite (frame_of [x] w w1 p Hn Hk); [exact Hf|].
    intros p' i [<-|[]] Hp' Hpi. apply Hne.
    apply (Hna p x i); [right; exact Hin | left; reflexivity | exact Hpi
                       | exact Hp'].
Qed.

Lemma main_of_ok_inv (s : script) (targets : list string) (w w' : world) :
  main_of s targets w = (Ok tt, w') ->
  exists w1 : world,
    for_each (body_of s) targets w = (Ok tt, w1) /\ files w' = files w1.
Proof.
  rewrite main_of_unfold. intros H.
  apply bind_inv_ok in H as ([] & w1 & Hrun & H).
  unfold print in H. inversion H. exists w1.
  split; [exact Hrun | reflexivity].
Qed.

(** X4: after a run that ended normally over a list in which no target is
    repeated and no two targets name the same file, every target that was a
    text file holds the text the script's transformation makes of the text
    that was read from it, applied once: the text the file held with every
    line end read as a line feed, transformed, and every line feed written
    as the line separator of the system. *)
Theorem X4_targets_hold_rewritten_text (s : script) (targets : list string)
  (w w' : world) (p : string) (room : option nat) (d : text) :
  NoDup targets -> no_alias w targets ->
  main_of s targets w = (Ok tt, w') ->
  In p targets ->
  files w !! p = Some (File true true room (Some d)) ->
  files w' !! p
  = Some (File true true room
            (Some (to_disk (linesep w) (text_of s (universal_newlines d))))).
Proof.
  intros Hnd Hna Hrun Hin Hf.
  apply main_of_ok_inv in Hrun as (w1 & Hrun & ->).
  exact (loop_rewrites_once s targets w w1 p room d Hnd Hna Hrun Hin Hf).
Qed.

Lemma X4_witness :
  exists w' : world,
    fix_any_types_main ["test/crlf.test.ts"] demo = (Ok tt, w')
    /\ files demo !! "test/crlf.test.ts"
       = Some (File true true None
                 (Some (T "import a from 'b';" ++ [13%N; 10%N] ++ T "x")%list))
    /\ files w' !! "test/crlf.test.ts"
       = Some (File true true None
                 (Some (to_disk (linesep demo)
                          (text_of FixAnyTypes
                             (universal_newlines crlf_lines)))))
    /\ to_disk (linesep demo)
         (text_of FixAnyTypes (universal_newlines crlf_lines))
       = (T "import a from 'b';" ++ nl ++ new_import_line ++ nl ++ T "x")%list.
Proof.
  eexists. split; [vm_compute; reflexivity|].
  split; [vm_compute; reflexivity|]. split; [|vm_compute; reflexivity].
  apply (X4_targets_hold_rewritten_text FixAnyTypes
           ["test/crlf.test.ts"] demo _ "test/crlf.test.ts" None crlf_lines).
  - apply NoDup_cons. split; [intros H; inversion H | apply NoDup_nil; exact I].
  - intros p1 p2 i [<-|[]] [<-|[]] _ _. reflexivity.
  - vm_compute. reflexivity.
  - left. reflexivity.
  - vm_compute. reflexivity.
Defined.

Lemma main_of_files (s : script) (targets : list string) (w : world) :
  files (snd (main_of s targets w))
  = files (snd (for_each (body_of s) targets w)).
Proof.
  destruct (main_of_snd s targets w) as (Hn & Hi & _).
  unfold files. rewrite Hn, Hi. reflexivity.
Qed.

(** X5: a target that is listed twice is rewritten twice, and the second
    pass reads what the first one stored: the file ends with the
    transformation applied to the text as it is read back from what the
    first pass wrote. *)
Theorem X5_listed_twice_rewritten_twice (s : script) (w : world) (p : string)
  (d : text) :
  files w !! p = Some (File true true None (Some d)) ->
  files (snd (main_of s [p; p] w)) !! p
  = Some (File true true None
            (Some (to_disk (linesep w)
                     (text_of s
                        (universal_newlines
                           (to_disk (linesep w)
                              (text_of s (universal_newlines d)))))))).
Proof.
  intros Hf. rewrite main_of_files. cbn [for_each].
  pose proof (body_of_good s w p None d Hf) as Hb. cbn [fits] in Hb.
  rewrite (bind_ok _ _ _ _ _ Hb).
  set (w1 := printed (fixed_line p)
               (stored p (text_of s (universal_newlines d)) w)).
  assert (Hf1 : files w1 !! p
                = Some (File true true None
                          (Some (to_disk (linesep w)
                                   (text_of s (universal_newlines d)))))).
  { exact (body_of_ok_file s w w1 p None d Hf Hb). }
  assert (Hl1 : linesep w1 = linesep w).
  { unfold w1. cbn [printed linesep]. apply linesep_stored. }
  pose proof (body_of_good s w1 p None _ Hf1) as Hb1. cbn [fits] in Hb1.
  rewrite (bind_ok _ _ _ _ _ Hb1). cbn [mret M_ret snd].
  rewrite (body_of_ok_file s w1 _ p None _ Hf1 Hb1). rewrite Hl1.
  reflexivity.
Qed.

Lemma X5_witness :
  remove_unused_imports_text import_two = import_one
  /\ files demo !! "test/two.test.ts"
     = Some (File true true None (Some import_two))
  /\ files (snd (fix_all_lint_main ["test/two.test.ts"; "test/two.test.ts"]
                   demo)) !! "test/two.test.ts"
     = Some (File true true None (Some import_none)).
Proof.
  split; [vm_compute; reflexivity|]. split; [vm_compute; reflexivity|].
  refine (eq_trans (X5_listed_twice_rewritten_twice FixAllLint demo
                      "test/two.test.ts" import_two _) _).
  - vm_compute. reflexivity.
  - vm_compute. reflexivity.
Defined.
(** *** The matcher only moves forward *)

Lemma rmatch_forward (r : regex) :
  forall (s : text) (c : caps) (k : cont) (m : text * caps),
    rmatch r s c k = Some m ->
    exists (s' : text) (c' : caps),
      (length s' <= length s)%nat /\ k s' c' = Some m.
Proof.
  induction r as [|cs|r1 IH1 r2 IH2|r1 IH1 r2 IH2|g r1 IH1|lo hi r1 IH1];
    intros s c k m H; cbn [rmatch] in H.
  - exists s, c. split; [lia | exact H].
  - destruct s as [|a s]; [discriminate|].
    destruct (cset_mem cs a); [|discriminate].
    exists s, c. split; [simpl; lia | exact H].
  - apply IH1 in H as (s1 & c1 & Hl1 & H).
    apply IH2 in H as (s2 & c2 & Hl2 & H).
    exists s2, c2. split; [lia | exact H].
  - destruct (rmatch r1 s c k) as [m1|] eqn:E1.
    + inversion H; subst m1. exact (IH1 _ _ _ _ E1).
    + exact (IH2 _ _ _ _ H).
  - apply IH1 in H as (s1 & c1 & Hl1 & H).
    eexists _, _. split; [|exact H]. exact Hl1.
  - revert H. generalize (length s) at 1. generalize O.
    intros n fuel. revert n s c.
    induction fuel as [|fuel IHf]; intros n s c H.
    + destruct (Nat.leb lo n); [|discriminate].
      exists s, c. split; [lia | exact H].
    + destruct (below hi n).
      * match type of H with
        | match ?X with _ => _ end = _ => destruct X as [m1|] eqn:E1
        end.
        -- inversion H; subst m1.
           apply IH1 in E1 as (s1 & c1 & Hl1 & E1).
           destruct (Nat.ltb (length s1) (length s)) eqn:Hlt; [|discriminate].
           apply IHf in E1 as (s2 & c2 & Hl2 & E1).
           exists s2, c2. split; [lia | exact E1].
        -- destruct (Nat.leb lo n); [|discriminate].
           exists s, c. split; [lia | exact H].
      * destruct (Nat.leb lo n); [|discriminate].
        exists s, c. split; [lia | exact H].
Qed.

Lemma match_here_forward (adv : bool) (r : regex) (s s' : text) (c : caps) :
  match_here adv r s = Some (s', c) ->
  (length s' <= length s)%nat
  /\ (adv = true -> (length s' < length s)%nat).
Proof.
  unfold match_here. intros H.
  apply rmatch_forward in H as (s1 & c1 & Hl & H).
  destruct (adv && negb (Nat.ltb (length s1) (length s))) eqn:E;
    [discriminate|].
  inversion H; subst s'. split; [exact Hl|].
  intros ->. cbn [andb] in E. apply negb_false_iff, Nat.ltb_lt in E. exact E.
Qed.

Lemma sub_loop_fuel (r : regex) (repl : caps -> text) (count : nat) :
  forall (fuel1 fuel2 n : nat) (adv : bool) (s : text),
    (steps_left adv s < fuel1)%nat ->
    (steps_left adv s < fuel2)%nat ->
    sub_loop fuel1 r repl count n adv s = sub_loop fuel2 r repl count n adv s.
Proof.
  induction fuel1 as [|fuel1 IH]; intros fuel2 n adv s H1 H2; [lia|].
  destruct fuel2 as [|fuel2]; [lia|].
  cbn [sub_loop].
  destruct (negb (Nat.eqb count 0) && Nat.leb count n); [reflexivity|].
  destruct (match_here adv r s) as [[s' c]|] eqn:Hm.
  - f_equal. apply match_here_forward in Hm as [Hle Hadv].
    unfold steps_left in *.
    destruct (Nat.ltb (length s') (length s)) eqn:Hlt; cbn [negb].
    + apply Nat.ltb_lt in Hlt. apply IH; lia.
    + apply Nat.ltb_ge in Hlt.
      destruct adv; [specialize (Hadv eq_refl); lia|].
      apply IH; lia.
  - destruct s as [|a s]; [reflexivity|]. f_equal.
    unfold steps_left in *. cbn [length] in *. apply IH; destruct adv; lia.
Qed.

(** [re.sub] does not depend on the fuel it is run with, once there is enough
    of it. *)
Lemma sub_count_fuel (r : regex) (repl : caps -> text) (count fuel : nat)
  (s : text) :
  (2 * length s + 2 <= fuel)%nat ->
  sub_loop fuel r repl count 0 false s = sub_count r repl count s.
Proof.
  intros H. unfold sub_count. apply sub_loop_fuel; unfold steps_left; lia.
Qed.

(** *** Literal patterns *)

Lemma starts_with_length (p s : text) :
  starts_with p s = true -> (length p <= length s)%nat.
Proof.
  revert s. induction p as [|a p IH]; intros [|b s] H; simpl in *;
    try lia; try discriminate.
  apply andb_prop in H as [_ H]. apply IH in H. lia.
Qed.

(** A pattern without operators matches where the text starts with it, and
    consumes its own length. *)
Lemma rmatch_lit (p s : text) (c : caps) (k : cont) :
  rmatch (lit p) s c k
  = if starts_with p s then k (skipn (length p) s) c else None.
Proof.
  revert s. induction p as [|a p IH]; intros s.
  - reflexivity.
  - destruct s as [|b s]; [reflexivity|].
    cbn [lit rmatch cset_mem starts_with length skipn].
    destruct (N.eqb a b); [apply IH | reflexivity].
Qed.

Lemma match_here_lit (a : N) (p s : text) :
  match_here false (lit (a :: p)) s
  = if starts_with (a :: p) s
    then Some (skipn (length (a :: p)) s,
               [(0%nat, firstn (length s - length (skipn (length (a :: p)) s)) s)])
    else None.
Proof. unfold match_here. rewrite rmatch_lit. reflexivity. Qed.

Section LiteralSub.
(** The pattern is [h :: pt], every replacement is [h :: rt], and [h] occurs
    in neither tail. *)
Variables (h : N) (pt rt : text) (repl : caps -> text).
Hypothesis Hrepl : forall c : caps, repl c = h :: rt.
Hypothesis Hpt : forallb (fun x => negb (N.eqb h x)) pt = true.
Hypothesis Hrt : forallb (fun x => negb (N.eqb h x)) rt = true.
Hypothesis Hmis : forall o : text, starts_with (h :: pt) (h :: rt ++ o) = false.

Let out (fuel n : nat) (s : text) : text :=
  sub_loop fuel (lit (h :: pt)) repl 0 n false s.

Lemma sub_lit_hit (fuel n : nat) (s : text) :
  starts_with (h :: pt) s = true ->
  out (S fuel) n s
  = h :: rt ++ out fuel (S n) (skipn (length (h :: pt)) s).
Proof.
  intros Hs. unfold out. cbn [sub_loop Nat.eqb negb andb].
  rewrite match_here_lit, Hs, Hrepl.
  pose proof (starts_with_length _ _ Hs) as Hlen.
  assert (Hlt : Nat.ltb (length (skipn (length (h :: pt)) s)) (length s)
                = true).
  { apply Nat.ltb_lt. rewrite length_skipn. simpl in *. lia. }
  rewrite Hlt. reflexivity.
Qed.

Lemma sub_lit_miss (fuel n : nat) (a : N) (s : text) :
  starts_with (h :: pt) (a :: s) = false ->
  out (S fuel) n (a :: s) = a :: out fuel n s.
Proof.
  intros Hs. unfold out. cbn [sub_loop Nat.eqb negb andb].
  rewrite match_here_lit, Hs. reflexivity.
Qed.

Lemma sub_lit_nil (fuel n : nat) : out fuel n [] = [].
Proof. destruct fuel; reflexivity. Qed.

(** A stretch of text without [h] that the output starts with was already
    at the start of the input. *)
Lemma sub_lit_prefix (q : text) :
  forallb (fun x => negb (N.eqb h x)) q = true ->
  forall (fuel n : nat) (s : text),
    starts_with q (out fuel n s) = true -> starts_with q s = true.
Proof.
  induction q as [|x q IH]; intros Hq fuel n s Hout; [reflexivity|].
  cbn [forallb] in Hq. apply andb_prop in Hq as [Hx Hq].
  destruct fuel as [|fuel]; [exact Hout|].
  destruct (starts_with (h :: pt) s) eqn:Hs.
  - rewrite (sub_lit_hit _ _ _ Hs) in Hout. cbn [starts_with] in Hout.
    apply andb_prop in Hout as [Hxh _].
    apply N.eqb_eq in Hxh. subst x. rewrite N.eqb_refl in Hx. discriminate.
  - destruct s as [|a s]; [rewrite sub_lit_nil in Hout; discriminate|].
    rewrite (sub_lit_miss _ _ _ _ Hs) in Hout. cbn [starts_with] in *.
    apply andb_prop in Hout as [Hxa Hout]. rewrite Hxa. cbn [andb].
    exact (IH Hq fuel n s Hout).
Qed.

Lemma contains_skip (l o : text) :
  forallb (fun x => negb (N.eqb h x)) l = true ->
  contains (h :: pt) (l ++ o) = contains (h :: pt) o.
Proof.
  induction l as [|x l IH]; intros Hl; [reflexivity|].
  cbn [forallb] in Hl. apply andb_prop in Hl as [Hx Hl].
  cbn [app contains starts_with].
  apply negb_true_iff in Hx. rewrite Hx. cbn [andb orb]. exact (IH Hl).
Qed.

(** With enough fuel, no occurrence of the pattern is left. *)
Lemma sub_lit_clean (fuel n : nat) (s : text) :
  (length s < fuel)%nat -> contains (h :: pt) (out fuel n s) = false.
Proof.
  revert n s. induction fuel as [|fuel IH]; intros n s Hlen; [lia|].
  destruct (starts_with (h :: pt) s) eqn:Hs.
  - rewrite (sub_lit_hit _ _ _ Hs).
    pose proof (starts_with_length _ _ Hs) as Hp.
    cbn [contains]. rewrite Hmis. cbn [orb].
    rewrite (contains_skip _ _ Hrt).
    apply IH. rewrite length_skipn. simpl in *. lia.
  - destruct s as [|a s]; [rewrite sub_lit_nil; reflexivity|].
    rewrite (sub_lit_miss _ _ _ _ Hs).
    cbn [contains]. rewrite (IH n s) by (simpl in Hlen; lia).
    rewrite orb_false_r.
    destruct (starts_with (h :: pt) (a :: out fuel n s)) eqn:Ho;
      [|reflexivity].
    cbn [starts_with] in Ho, Hs. apply andb_prop in Ho as [Hha Ho].
    rewrite Hha in Hs. cbn [andb] in Hs.
    rewrite (sub_lit_prefix pt Hpt fuel n s Ho) in Hs. discriminate.
Qed.

Lemma sub_lit_no_occurrence (s : text) :
  contains (h :: pt) (sub (lit (h :: pt)) repl s) = false.
Proof. unfold sub, sub_count. apply sub_lit_clean. lia. Qed.
End LiteralSub.

(** *** What a match consumes *)

Local Open Scope list_scope.

Lemma binds_within_nil (gs : list nat) : binds_within gs [].
Proof. intros g v []. Qed.

Lemma binds_within_app (gs1 gs2 : list nat) (e1 e2 : caps) :
  binds_within gs1 e1 -> binds_within gs2 e2 ->
  binds_within (gs2 ++ gs1) (e1 ++ e2).
Proof.
  intros H1 H2 g v Hin. apply in_app_or in Hin as [Hin|Hin]; apply in_or_app.
  - right. exact (H1 g v Hin).
  - left. exact (H2 g v Hin).
Qed.

Lemma binds_within_weaken (gs gs' : list nat) (ext : caps) :
  (forall g, In g gs -> In g gs') -> binds_within gs ext ->
  binds_within gs' ext.
Proof. intros Hsub H g v Hin. exact (Hsub g (H g v Hin)). Qed.

(** The matcher is sound: when [rmatch] succeeds, the continuation was given
    the text that is left after a stretch the pattern can match, and the
    bindings of groups of the pattern in front of those it started with. *)
Lemma rmatch_sound (r : regex) :
  forall (s : text) (c : caps) (k : cont) (m : text * caps),
    rmatch r s c k = Some m ->
    exists (u s' : text) (ext : caps),
      s = (u ++ s')%list /\ matches r u /\ binds_within (groups r) ext
      /\ k s' (ext ++ c)%list = Some m.
Proof.
  induction r as [|cs|r1 IH1 r2 IH2|r1 IH1 r2 IH2|g r1 IH1|lo hi r1 IH1];
    intros s c k m H; cbn [rmatch] in H.
  - exists [], s, []. repeat split; [constructor | apply binds_within_nil | exact H].
  - destruct s as [|a s]; [discriminate|].
    destruct (cset_mem cs a) eqn:Ha; [|discriminate].
    exists [a], s, []. repeat split;
      [constructor; exact Ha | apply binds_within_nil | exact H].
  - apply IH1 in H as (u1 & s1 & e1 & -> & M1 & B1 & H).
    apply IH2 in H as (u2 & s2 & e2 & -> & M2 & B2 & H).
    exists (u1 ++ u2)%list, s2, (e2 ++ e1)%list. repeat split.
    + rewrite app_assoc. reflexivity.
    + constructor; assumption.
    + cbn [groups]. exact (binds_within_app _ _ _ _ B2 B1).
    + rewrite <- app_assoc. exact H.
  - destruct (rmatch r1 s c k) as [m1|] eqn:E1.
    + inversion H; subst m1.
      apply IH1 in E1 as (u & s' & e & -> & M & B & E1).
      exists u, s', e. repeat split; [apply M_alt_l; exact M | | exact E1].
      cbn [groups]. eapply binds_within_weaken; [|exact B].
      intros g Hg. apply in_or_app. left. exact Hg.
    + apply IH2 in H as (u & s' & e & -> & M & B & H).
      exists u, s', e. repeat split; [apply M_alt_r; exact M | | exact H].
      cbn [groups]. eapply binds_within_weaken; [|exact B].
      intros g Hg. apply in_or_app. right. exact Hg.
  - apply IH1 in H as (u & s' & e & -> & M & B & H).
    exists u, s', ((g, firstn (length (u ++ s') - length s') (u ++ s')) :: e).
    repeat split; [constructor; exact M | | exact H].
    intros g' v [Heq|Hin]; cbn [groups].
    + inversion Heq; subst. left. reflexivity.
    + right. exact (B g' v Hin).
  - cbn [groups].
    assert (Hiter : forall (fuel n : nat) (s : text) (c : caps),
      (fix iter (fuel n : nat) (s : text) (c : caps) {struct fuel} :=
         match fuel with
         | O => if Nat.leb lo n then k s c else None
         | S fuel' =>
             if below hi n then
               match
                 rmatch r1 s c
                   (fun s' c' =>
                      if Nat.ltb (length s') (length s)
                      then iter fuel' (S n) s' c'
                      else None)
               with
               | Some m => Some m
               | None => if Nat.leb lo n then k s c else None
               end
             else if Nat.leb lo n then k s c else None
         end) fuel n s c = Some m ->
      exists (u s' : text) (ext : caps),
        s = (u ++ s')%list /\ matches (Repeat (lo - n) hi r1) u
        /\ binds_within (groups r1) ext /\ k s' (ext ++ c)%list = Some m).
    { assert (Hstop : forall (n : nat) (s : text) (c : caps),
        (if Nat.leb lo n then k s c else None) = Some m ->
        exists (u s' : text) (ext : caps),
          s = (u ++ s')%list /\ matches (Repeat (lo - n) hi r1) u
          /\ binds_within (groups r1) ext /\ k s' (ext ++ c)%list = Some m).
      { intros n s0 c0 Hs. destruct (Nat.leb lo n) eqn:Hle; [|discriminate].
        apply Nat.leb_le in Hle.
        exists [], s0, []. repeat split; [|apply binds_within_nil | exact Hs].
        replace (lo - n)%nat with O by lia. constructor. }
      induction fuel as [|fuel IHf]; intros n s0 c0 Hs.
      - exact (Hstop n s0 c0 Hs).
      - destruct (below hi n); [|exact (Hstop n s0 c0 Hs)].
        match type of Hs with
        | match ?X with _ => _ end = _ => destruct X as [m1|] eqn:E1
        end; [|exact (Hstop n s0 c0 Hs)].
        inversion Hs; subst m1.
        apply IH1 in E1 as (u1 & s1 & e1 & -> & M1 & B1 & E1).
        destruct (Nat.ltb (length s1) (length (u1 ++ s1))); [|discriminate].
        apply IHf in E1 as (u2 & s2 & e2 & -> & M2 & B2 & E1).
        exists (u1 ++ u2)%list, s2, (e2 ++ e1)%list. repeat split.
        + rewrite app_assoc. reflexivity.
        + apply M_rep_more; [exact M1|].
          replace (Nat.pred (lo - n)) with (lo - S n)%nat by lia. exact M2.
        + intros g v Hin. apply in_app_or in Hin as [Hin|Hin];
            [exact (B2 g v Hin) | exact (B1 g v Hin)].
        + rewrite <- app_assoc. exact E1. }
    apply Hiter in H. rewrite Nat.sub_0_r in H. exact H.
Qed.

(** What a match object holds after a match at the start of [s]: the text
    left, a stretch the pattern can match in front of it, and the groups of
    the pattern behind group 0. *)
Lemma match_here_sound (adv : bool) (r : regex) (s s' : text) (c : caps) :
  match_here adv r s = Some (s', c) ->
  exists (u : text) (ext : caps),
    s = (u ++ s')%list /\ matches r u /\ binds_within (groups r) ext
    /\ c = (0%nat, u) :: ext.
Proof.
  unfold match_here. intros H.
  apply rmatch_sound in H as (u & s1 & ext & -> & M & B & H).
  destruct (adv && negb (Nat.ltb (length s1) (length (u ++ s1))));
    [discriminate|].
  inversion H; subst. exists u, ext. repeat split; [exact M | exact B|].
  rewrite app_nil_r. unfold set_group. do 2 f_equal.
  rewrite length_app.
  replace (length u + length s' - length s')%nat with (length u) by lia.
  rewrite firstn_app, Nat.sub_diag, firstn_all. cbn. apply app_nil_r.
Qed.

Lemma matches_lit (p u : text) : matches (lit p) u -> u = p.
Proof.
  revert u. induction p as [|a p IH]; intros u H; cbn [lit] in H.
  - inversion H. reflexivity.
  - inversion H as [| |? ? u1 u2 H1 H2| | | | |]; subst.
    inversion H1; subst. cbn [cset_mem] in *.
    match goal with Hc : N.eqb _ _ = true |- _ => apply N.eqb_eq in Hc; subst end.
    cbn. f_equal. apply IH. exact H2.
Qed.

Lemma matches_chars (cs : cset) (lo : nat) (hi : option nat) (u : text) :
  matches (Repeat lo hi (Chr cs)) u ->
  forallb (cset_mem cs) u = true /\ (lo <= length u)%nat.
Proof.
  intros H. remember (Repeat lo hi (Chr cs)) as r eqn:Hr.
  revert lo Hr.
  induction H as [| | | | | |hi' r'|lo' hi' r' u1 u2 H1 _ H2 IH2];
    intros lo Hr; inversion Hr; subst.
  - split; [reflexivity | cbn; lia].
  - inversion H1; subst.
    destruct (IH2 (Nat.pred lo) eq_refl) as [Hall Hlen].
    split.
    + cbn [app forallb]. rewrite Hall.
      match goal with Hc : cset_mem _ _ = true |- _ => rewrite Hc end.
      reflexivity.
    + cbn [app length]. lia.
Qed.

(** *** Texts a rule leaves alone *)

Lemma starts_with_app_l (p a b : text) :
  starts_with p a = true -> starts_with p (a ++ b) = true.
Proof.
  revert a. induction p as [|x p IH]; intros a H; [reflexivity|].
  destruct a as [|y a]; [discriminate|]. cbn [starts_with app] in *.
  apply andb_prop in H as [-> H]. cbn [andb]. exact (IH a H).
Qed.

Lemma contains_app_l (p a b : text) :
  contains p a = true -> contains p (a ++ b) = true.
Proof.
  induction a as [|x a IH]; intros H.
  - cbn [contains] in H. rewrite orb_false_r in H.
    destruct p; [destruct b; reflexivity | discriminate].
  - cbn [contains app] in *. apply orb_prop in H as [H|H].
    + change (x :: a ++ b) with ((x :: a) ++ b).
      rewrite (starts_with_app_l _ _ _ H). reflexivity.
    + rewrite (IH H). apply orb_true_r.
Qed.

Lemma contains_app_r (p a b : text) :
  contains p b = true -> contains p (a ++ b) = true.
Proof.
  intros H. induction a as [|x a IH]; [exact H|].
  cbn [contains app]. rewrite IH. apply orb_true_r.
Qed.

Lemma starts_with_refl (p : text) : starts_with p p = true.
Proof.
  induction p as [|x p IH]; [reflexivity|].
  cbn [starts_with]. rewrite N.eqb_refl. exact IH.
Qed.

Lemma contains_refl (p : text) : contains p p = true.
Proof. destruct p; cbn [contains]; rewrite starts_with_refl; reflexivity. Qed.

Lemma contains_tail (p : text) (a : N) (s : text) :
  contains p (a :: s) = false -> contains p s = false.
Proof. cbn [contains]. intros H. apply orb_false_elim in H as [_ H]. exact H. Qed.

Lemma matches_seq_inv (r1 r2 : regex) (u : text) :
  matches (Seq r1 r2) u ->
  exists u1 u2 : text, u = u1 ++ u2 /\ matches r1 u1 /\ matches r2 u2.
Proof. intros H. inversion H; subst. eauto. Qed.

Lemma matches_group_inv (n : nat) (r : regex) (u : text) :
  matches (Group n r) u -> matches r u.
Proof. intros H. inversion H; subst. assumption. Qed.

Lemma matches_alt_inv (r1 r2 : regex) (u : text) :
  matches (Alt r1 r2) u -> matches r1 u \/ matches r2 u.
Proof. intros H. inversion H; subst; auto. Qed.

(** A pattern that starts with the literal [a]: every match starts with
    it. *)
Lemma matches_lit_seq (a : text) (r : regex) (u : text) :
  matches (Seq (lit a) r) u -> exists u2 : text, u = a ++ u2 /\ matches r u2.
Proof.
  intros H. apply matches_seq_inv in H as (u1 & u2 & -> & H1 & H2).
  apply matches_lit in H1 as ->. eauto.
Qed.

Lemma needs_of_matches (r : regex) (p : text) :
  (forall u : text, matches r u -> contains p u = true) -> needs r p.
Proof.
  intros H s s' c Hm.
  apply match_here_sound in Hm as (u & ext & -> & M & _).
  apply contains_app_l, H, M.
Qed.

Lemma search_without (r : regex) (p t : text) :
  needs r p -> contains p t = false -> search r t = false.
Proof.
  intros Hn. induction t as [|a t IH]; intros Hc; cbn [search].
  - destruct (match_here false r []) as [[s' c]|] eqn:Hm; [|reflexivity].
    rewrite (Hn _ _ _ Hm) in Hc. discriminate.
  - destruct (match_here false r (a :: t)) as [[s' c]|] eqn:Hm.
    + rewrite (Hn _ _ _ Hm) in Hc. discriminate.
    + apply IH. exact (contains_tail _ _ _ Hc).
Qed.

(** [re.sub] returns the text as it is when the pattern matches nowhere. *)
Lemma sub_loop_no_match (r : regex) (repl : caps -> text) (count : nat) :
  forall (fuel n : nat) (t : text),
    search r t = false -> sub_loop fuel r repl count n false t = t.
Proof.
  induction fuel as [|fuel IH]; intros n t Hs; [reflexivity|].
  cbn [sub_loop].
  destruct (negb (Nat.eqb count 0) && Nat.leb count n); [reflexivity|].
  destruct t as [|a t]; cbn [search] in Hs.
  - destruct (match_here false r []); [discriminate | reflexivity].
  - destruct (match_here false r (a :: t)); [discriminate|].
    f_equal. apply IH. exact Hs.
Qed.

Lemma sub_count_without (r : regex) (repl : caps -> text) (count : nat)
  (p t : text) :
  needs r p -> contains p t = false -> sub_count r repl count t = t.
Proof.
  intros Hn Hc. unfold sub_count.
  apply sub_loop_no_match, (search_without r p t Hn Hc).
Qed.

Lemma needs_lit (p : text) : needs (lit p) p.
Proof.
  apply needs_of_matches. intros u M. apply matches_lit in M as ->.
  apply contains_refl.
Qed.

(** The patterns of [fix-all-lint.py] match only where there is a comma. *)
Lemma needs_lint_import : needs lint_import_re (T ",").
Proof.
  apply needs_of_matches. intros u M. unfold lint_import_re in M.
  apply matches_lit_seq in M as (u1 & -> & M).
  apply matches_seq_inv in M as (g & u2 & -> & _ & M).
  apply matches_lit_seq in M as (u3 & -> & _).
  apply contains_app_r, contains_app_r. reflexivity.
Qed.

Lemma needs_double_comma : needs double_comma_re (T ",").
Proof.
  apply needs_of_matches. intros u M. unfold double_comma_re in M.
  apply matches_lit_seq in M as (u1 & -> & _). reflexivity.
Qed.

Lemma needs_trailing_comma : needs trailing_comma_re (T ",").
Proof.
  apply needs_of_matches. intros u M. unfold trailing_comma_re in M.
  apply matches_lit_seq in M as (u1 & -> & _). reflexivity.
Qed.

(** X6: [remove_unused_imports] changes nothing in a text without a comma:
    none of its three patterns can match there. *)
Theorem X6_lint_needs_a_comma (t : text) :
  contains (T ",") t = false -> remove_unused_imports_text t = t.
Proof.
  intros Hc. unfold remove_unused_imports_text, sub.
  rewrite (sub_count_without _ _ _ _ t needs_lint_import Hc).
  rewrite (sub_count_without _ _ _ _ t needs_double_comma Hc).
  exact (sub_count_without _ _ _ _ t needs_trailing_comma Hc).
Qed.

Lemma X6_witness :
  contains (T ",") plain = false /\ remove_unused_imports_text plain = plain.
Proof.
  split; [vm_compute; reflexivity|].
  apply (X6_lint_needs_a_comma plain). vm_compute. reflexivity.
Defined.

(** The patterns of the casts match only at [) as any;]. *)
Lemma needs_status (codes : regex) : needs (status_re codes) as_any.
Proof.
  apply needs_of_matches. intros u M. unfold status_re, await_json in M.
  apply matches_seq_inv in M as (u1 & u2 & -> & M1 & M2).
  apply matches_group_inv, matches_lit in M1 as ->.
  apply matches_lit_seq in M2 as (u3 & -> & _).
  rewrite app_assoc. apply contains_app_l. vm_compute. reflexivity.
Qed.

Lemma needs_error : needs error_re as_any.
Proof. apply needs_status. Qed.

Lemma needs_success : needs success_re as_any.
Proof. apply needs_status. Qed.

Lemma needs_ping : needs ping_re as_any.
Proof.
  apply needs_of_matches. intros u M. unfold ping_re, await_json in M.
  apply matches_seq_inv in M as (u1 & u2 & -> & M1 & M2).
  apply matches_group_inv, matches_lit in M1 as ->.
  apply matches_lit_seq in M2 as (u3 & -> & _).
  rewrite app_assoc. apply contains_app_l. vm_compute. reflexivity.
Qed.

(** The two import patterns match only at [import ]. *)
Lemma needs_import_pattern : needs import_pattern (T "import ").
Proof.
  apply needs_of_matches. intros u M. unfold import_pattern in M.
  apply matches_group_inv in M.
  apply matches_lit_seq in M as (u1 & -> & _).
  apply contains_app_l. vm_compute. reflexivity.
Qed.

Lemma needs_any_import : needs any_import_re (T "import ").
Proof.
  apply needs_of_matches. intros u M. unfold any_import_re in M.
  apply matches_seq_inv in M as (u1 & u2 & -> & M1 & _).
  apply matches_group_inv in M1.
  apply matches_lit_seq in M1 as (u3 & -> & _).
  apply contains_app_l, contains_app_l. vm_compute. reflexivity.
Qed.

Lemma add_import_without (t : text) :
  contains (T "SuccessResponse") t || contains (T "ErrorResponse") t = true
  \/ contains (T "import ") t = false ->
  add_import t = t.
Proof.
  intros H. unfold add_import.
  destruct (negb (contains (T "SuccessResponse") t)
            && negb (contains (T "ErrorResponse") t)) eqn:Hn;
    [|reflexivity].
  destruct H as [H|H].
  - apply andb_prop in Hn as [H1 H2].
    apply negb_true_iff in H1, H2. rewrite H1, H2 in H. discriminate.
  - rewrite (search_without _ _ _ needs_import_pattern H).
    exact (sub_count_without _ _ _ _ t needs_any_import H).
Qed.

Lemma casts_without (t : text) :
  contains as_any t = false -> apply_rules any_rules t = t.
Proof.
  intros Hc. unfold apply_rules, any_rules, apply_rule.
  cbn [fold_left matcher replacement limit].
  rewrite (sub_count_without _ _ _ _ t needs_error Hc).
  rewrite (sub_count_without _ _ _ _ t needs_success Hc).
  rewrite (sub_count_without _ _ _ _ t needs_ping Hc).
  exact (sub_count_without _ _ _ _ t (needs_lit as_any) Hc).
Qed.

(** X7: on a text that already names [SuccessResponse] or [ErrorResponse],
    or that holds no [import ] at all, [fix_any_types] returns the text as it
    is exactly when the text holds no [) as any;]. *)
Theorem X7_any_types_fixpoint (t : text) :
  contains (T "SuccessResponse") t || contains (T "ErrorResponse") t = true
  \/ contains (T "import ") t = false ->
  (fix_any_types_text t = t <-> contains as_any t = false).
Proof.
  intros Himp. split.
  - intros Hfix. rewrite <- Hfix. unfold fix_any_types_text.
    apply (sub_lit_no_occurrence 41 (T " as any;")
             (T " as SuccessResponse | ErrorResponse;")).
    + intros c. reflexivity.
    + vm_compute. reflexivity.
    + vm_compute. reflexivity.
    + intros o. reflexivity.
  - intros Hc.
    change (fix_any_types_text t) with (apply_rules any_rules (add_import t)).
    rewrite (add_import_without t Himp). exact (casts_without t Hc).
Qed.

Lemma X7_witness :
  fix_any_types_text plain = plain <-> contains as_any plain = false.
Proof.
  apply (X7_any_types_fixpoint plain). right. vm_compute. reflexivity.
Defined.

(** *** Deleting a literal *)

Section LiteralDelete.
(** The pattern is the literal [a :: p] and every replacement is empty. *)
Variables (a : N) (p : text) (repl : caps -> text).
Hypothesis Hrepl : forall c : caps, repl c = [].

Lemma delete_hit (fuel n : nat) (s : text) :
  starts_with (a :: p) s = true ->
  sub_loop (S fuel) (lit (a :: p)) repl 0 n false s
  = sub_loop fuel (lit (a :: p)) repl 0 (S n) false
      (skipn (length (a :: p)) s).
Proof.
  intros Hs. cbn [sub_loop Nat.eqb negb andb].
  rewrite match_here_lit, Hs, Hrepl.
  pose proof (starts_with_length _ _ Hs) as Hlen.
  assert (Hlt : Nat.ltb (length (skipn (length (a :: p)) s)) (length s)
                = true).
  { apply Nat.ltb_lt. rewrite length_skipn. cbn [length] in *. lia. }
  rewrite Hlt. reflexivity.
Qed.

Lemma delete_miss (fuel n : nat) (b : N) (s : text) :
  starts_with (a :: p) (b :: s) = false ->
  sub_loop (S fuel) (lit (a :: p)) repl 0 n false (b :: s)
  = b :: sub_loop fuel (lit (a :: p)) repl 0 n false s.
Proof.
  intros Hs. cbn [sub_loop Nat.eqb negb andb].
  rewrite match_here_lit, Hs. reflexivity.
Qed.

(** The result is never longer than the text, and it is shorter when the
    text holds the literal. *)
Lemma delete_length (fuel n : nat) (s : text) :
  (length s < fuel)%nat ->
  (length (sub_loop fuel (lit (a :: p)) repl 0 n false s) <= length s)%nat
  /\ (contains (a :: p) s = true ->
      (length (sub_loop fuel (lit (a :: p)) repl 0 n false s) < length s)%nat).
Proof.
  revert n s. induction fuel as [|fuel IH]; intros n s Hlen; [lia|].
  destruct (starts_with (a :: p) s) eqn:Hs.
  - rewrite (delete_hit _ _ _ Hs).
    pose proof (starts_with_length _ _ Hs) as Hp.
    assert (Hk : (1 <= length (a :: p))%nat) by (cbn [length]; lia).
    remember (length (a :: p)) as k eqn:Ek. clear Ek.
    destruct (IH (S n) (skipn k s)) as [Hle _].
    { rewrite length_skipn. lia. }
    rewrite length_skipn in Hle.
    split; [lia | intros _; lia].
  - destruct s as [|b s].
    + split; [reflexivity | intros Hc; discriminate Hc].
    + rewrite (delete_miss _ _ _ _ Hs). cbn [length] in *.
      destruct (IH n s) as [Hle Hlt]; [lia|].
      split; [lia|]. intros Hc. cbn [contains] in Hc.
      change (starts_with (a :: p) (b :: s)) with
        (N.eqb a b && starts_with p s) in Hc.
      cbn [starts_with] in Hs. rewrite Hs in Hc. cbn [orb] in Hc.
      specialize (Hlt Hc). lia.
Qed.
End LiteralDelete.

(** X8: [fix-unused-imports.py] only deletes: the text it produces is never
    longer than the text it read, and it is that very text exactly when the
    text does not hold [, SuccessResponse, ErrorResponse, PingResponse]. *)
Theorem X8_unused_only_deletes (t : text) :
  (length (fix_unused_imports_text t) <= length t)%nat
  /\ (fix_unused_imports_text t = t <-> contains unused_names t = false).
Proof.
  assert (Hd := delete_length 44 (T " SuccessResponse, ErrorResponse, PingResponse")
                  (expand []) (fun c => eq_refl) (2 * length t + 2) 0 t).
  destruct Hd as [Hle Hlt]; [lia|].
  change (sub_loop (2 * length t + 2) _ (expand []) 0 0 false t)
    with (fix_unused_imports_text t) in Hle, Hlt.
  change (44 :: T " SuccessResponse, ErrorResponse, PingResponse")
    with unused_names in Hlt.
  split; [exact Hle|]. split.
  - intros Hfix. destruct (contains unused_names t) eqn:Hc; [|reflexivity].
    specialize (Hlt eq_refl). rewrite Hfix in Hlt. lia.
  - intros Hc. unfold fix_unused_imports_text, sub.
    exact (sub_count_without _ _ _ _ t (needs_lit unused_names) Hc).
Qed.

(** Deleting can bring the names together again: one pass of
    [fix-unused-imports.py] may leave an occurrence behind. *)
Example unused_names_can_remain :
  fix_unused_imports_text (T "," ++ unused_names ++ skipn 1 unused_names)
  = unused_names.
Proof. vm_compute. reflexivity. Qed.

(** *** The shape of a cast match *)

Lemma starts_with_split (a s : text) :
  starts_with a s = true -> s = a ++ skipn (length a) s.
Proof.
  revert s. induction a as [|x a IH]; intros s H; [reflexivity|].
  destruct s as [|y s]; [discriminate|]. cbn [starts_with] in H.
  apply andb_prop in H as [Hx H]. apply N.eqb_eq in Hx as ->.
  cbn [length skipn app]. f_equal. exact (IH s H).
Qed.

Lemma starts_with_app (a s : text) : starts_with a (a ++ s) = true.
Proof. apply starts_with_app_l, starts_with_refl. Qed.

Lemma skipn_app_exact (a s : text) : skipn (length a) (a ++ s) = s.
Proof. induction a as [|x a IH]; [reflexivity | exact IH]. Qed.

Lemma firstn_consumed (u s : text) :
  firstn (length (u ++ s) - length s) (u ++ s) = u.
Proof.
  rewrite length_app.
  replace (length u + length s - length s)%nat with (length u) by lia.
  rewrite firstn_app, Nat.sub_diag, firstn_all. cbn. apply app_nil_r.
Qed.

Lemma rmatch_seq_lit (a : text) (r : regex) (s : text) (c : caps) (k : cont) :
  rmatch (Seq (lit a) r) s c k
  = if starts_with a s then rmatch r (skipn (length a) s) c k else None.
Proof. cbn [rmatch]. apply rmatch_lit. Qed.

(** A group binds the stretch its pattern matched. *)
Lemma rmatch_group_sound (g : nat) (r : regex) (s : text) (c : caps)
  (k : cont) (m : text * caps) :
  rmatch (Group g r) s c k = Some m ->
  exists (u s' : text) (ext : caps),
    s = u ++ s' /\ matches r u /\ binds_within (groups r) ext
    /\ k s' ((g, u) :: ext ++ c) = Some m.
Proof.
  cbn [rmatch]. intros H.
  apply rmatch_sound in H as (u & s' & ext & -> & M & B & H).
  unfold set_group in H. rewrite firstn_consumed in H.
  exists u, s', ext. auto.
Qed.

Lemma groups_lit (p : text) : groups (lit p) = [].
Proof. induction p as [|a p IH]; [reflexivity | exact IH]. Qed.

Lemma binds_within_none (ext : caps) : binds_within [] ext -> ext = [].
Proof.
  destruct ext as [|[g v] ext]; [reflexivity|].
  intros H. destruct (H g v (or_introl eq_refl)).
Qed.

Lemma group_skip (n : nat) (ext c : caps) :
  (forall (g : nat) (v : text), In (g, v) ext -> g <> n) ->
  group n (ext ++ c) = group n c.
Proof.
  induction ext as [|[g v] ext IH]; intros H; [reflexivity|].
  cbn [app group]. destruct (Nat.eqb n g) eqn:E.
  - apply Nat.eqb_eq in E. subst g.
    destruct (H n v (or_introl eq_refl) eq_refl).
  - apply IH. intros g' v' Hin. apply (H g' v'). right. exact Hin.
Qed.

(** A match of a cast pattern: the text [(await res.json())], then
    [ as any;], then a stretch [u] the rest of the pattern matched; group 1 is
    the first and group 2 the last of the three. *)
Lemma status_shape (adv : bool) (codes : regex) (s s' : text) (c : caps) :
  groups codes = [] ->
  match_here adv (status_re codes) s = Some (s', c) ->
  exists u : text,
    s = await_text ++ any_text ++ u ++ s'
    /\ matches (status_tail codes) u
    /\ group 1 c = await_text /\ group 2 c = u.
Proof.
  intros Hg H. unfold match_here, status_re, await_json in H.
  change (rmatch (?r1 +> ?r2) ?s ?c ?k)
    with (rmatch r1 s c (fun s' c' => rmatch r2 s' c' k)) in H.
  apply rmatch_group_sound in H as (u1 & s1 & e1 & -> & M1 & B1 & H).
  apply matches_lit in M1 as ->. rewrite groups_lit in B1.
  apply binds_within_none in B1 as ->. cbn [app] in H.
  rewrite rmatch_seq_lit in H.
  destruct (starts_with (T " as any;") s1) eqn:Hs1; [|discriminate].
  rewrite (starts_with_split _ _ Hs1).
  apply rmatch_group_sound in H as (u & s3 & e2 & Hs3 & M & B & H).
  rewrite Hs3.
  destruct (adv && _) in H; [discriminate|].
  inversion H; subst s' c. exists u. split; [reflexivity|].
  split; [exact M|]. unfold set_group. cbn [group Nat.eqb].
  split; [|reflexivity].
  rewrite group_skip; [reflexivity|].
  intros g v Hin. apply B in Hin. cbn [groups app] in Hin.
  rewrite groups_lit, Hg in Hin. cbn in Hin.
  destruct Hin as [<-|[]]. discriminate.
Qed.

(** What the rest of a cast pattern matches: white space, at least one
    character of it, then [expect(res.status).toBe(], a stretch the status
    codes match, and a closing parenthesis. *)
Lemma status_tail_shape (codes : regex) (u : text) :
  matches (status_tail codes) u ->
  exists ws code : text,
    u = ws ++ expect_text ++ code ++ T ")"
    /\ forallb is_space ws = true /\ (1 <= length ws)%nat
    /\ matches codes code.
Proof.
  unfold status_tail, plus. intros M.
  apply matches_seq_inv in M as (ws & u1 & -> & Mws & M).
  apply matches_lit_seq in M as (u2 & -> & M).
  apply matches_seq_inv in M as (code & u3 & -> & Mc & M).
  apply matches_group_inv in Mc. apply matches_lit in M as ->.
  apply matches_chars in Mws as [Hws Hlen].
  exists ws, code. auto.
Qed.

(** A match of the pattern for [/ping]: it starts like a cast whose status
    is 200. *)
Lemma ping_shape (s s' : text) (c : caps) :
  match_here false ping_re s = Some (s', c) ->
  exists ws rest : text,
    s = await_text ++ any_text ++ ws ++ expect_text ++ T "200)" ++ rest
    /\ forallb is_space ws = true /\ (1 <= length ws)%nat.
Proof.
  intros H. apply match_here_sound in H as (u & ext & -> & M & _).
  unfold ping_re, await_json, plus in M.
  apply matches_seq_inv in M as (u1 & u2 & -> & M1 & M).
  apply matches_group_inv, matches_lit in M1 as ->.
  apply matches_lit_seq in M as (u3 & -> & M).
  apply matches_group_inv in M.
  apply matches_seq_inv in M as (ws & u4 & -> & Mws & M).
  apply matches_lit_seq in M as (u5 & -> & _).
  apply matches_chars in Mws as [Hws Hlen].
  exists ws, (T ";" ++ u5 ++ s'). split; [|auto].
  change (T "expect(res.status).toBe(200);")
    with (expect_text ++ T "200)" ++ T ";").
  rewrite <- !app_assoc. reflexivity.
Qed.

(** *** Where a cast can start *)

Lemma no_opening_app (a b : text) :
  no_opening a = true -> no_opening b = true -> no_opening (a ++ b) = true.
Proof.
  intros Ha Hb. induction a as [|x a IH]; [exact Hb|].
  cbn [no_opening app] in *. apply andb_prop in Ha as [Hx Ha].
  rewrite (IH Ha), andb_true_r.
  destruct (negb (N.eqb x 40)); [reflexivity|]. cbn [orb] in *.
  destruct a as [|y a]; [discriminate | exact Hx].
Qed.

Lemma space_not_paren (a : N) : is_space a = true -> N.eqb a 40 = false.
Proof.
  intros H. destruct (N.eqb_spec a 40) as [->|_]; [|reflexivity].
  vm_compute in H. discriminate H.
Qed.

Lemma no_opening_spaces (ws : text) :
  forallb is_space ws = true -> no_opening ws = true.
Proof.
  induction ws as [|a ws IH]; intros H; [reflexivity|].
  cbn [forallb no_opening] in *. apply andb_prop in H as [Ha H].
  rewrite (space_not_paren a Ha), (IH H). reflexivity.
Qed.

Lemma no_opening_head (x : N) (q o : text) :
  no_opening (x :: q) = true ->
  starts_with (x :: q) (40 :: 97 :: o) = false.
Proof.
  intros H. cbn [no_opening] in H. apply andb_prop in H as [H _].
  cbn [starts_with]. destruct (N.eqb_spec x 40) as [->|Hx].
  - cbn [N.eqb negb orb andb] in *. destruct q as [|b q]; [discriminate|].
    cbn [starts_with]. apply negb_true_iff in H.
    rewrite H. reflexivity.
  - reflexivity.
Qed.

(** No match of a pattern that opens with [(a] starts inside a stretch in
    which no cast can start. *)
Lemma search_skip_block (r : regex) (x o : text) :
  opens r -> no_opening x = true -> search r (x ++ o) = search r o.
Proof.
  intros Hr. induction x as [|a x IH]; intros Hx; [reflexivity|].
  cbn [app search].
  destruct (match_here false r (a :: x ++ o)) as [[s' c]|] eqn:Hm.
  - apply Hr in Hm. exfalso. cbn [no_opening] in Hx.
    apply andb_prop in Hx as [Ha _]. cbn [starts_with] in Hm.
    apply andb_prop in Hm as [H40 Hm]. apply N.eqb_eq in H40. subst a.
    cbn [N.eqb negb orb] in Ha. destruct x as [|b x]; [discriminate|].
    cbn [app starts_with] in Hm. apply andb_prop in Hm as [H97 _].
    apply N.eqb_eq in H97. subst b. discriminate Ha.
  - apply IH. cbn [no_opening] in Hx. apply andb_prop in Hx as [_ Hx].
    exact Hx.
Qed.

Section Reflect.
(** Every replacement starts with [(a] and every match consumes
    something. *)
Variables (r : regex) (repl : caps -> text).
Hypothesis Hhit : forall (s s' : text) (c : caps),
  match_here false r s = Some (s', c) ->
  exists y : text, repl c = 40 :: 97 :: y.

(** A stretch in which no cast can start and that the output starts with
    was at the start of the input. *)
Lemma sub_reflects (q : text) :
  no_opening q = true ->
  forall (fuel n : nat) (s : text),
    starts_with q (sub_loop fuel r repl 0 n false s) = true ->
    starts_with q s = true.
Proof.
  induction q as [|x q IH]; intros Hq fuel n s Hout; [reflexivity|].
  destruct fuel as [|fuel]; [exact Hout|].
  cbn [sub_loop Nat.eqb negb andb] in Hout.
  destruct (match_here false r s) as [[s' c]|] eqn:Hm.
  - destruct (Hhit _ _ _ Hm) as [y Hy]. rewrite Hy in Hout.
    cbn [app] in Hout. rewrite (no_opening_head x q _ Hq) in Hout.
    discriminate Hout.
  - destruct s as [|a s]; [discriminate Hout|].
    cbn [starts_with] in *. apply andb_prop in Hout as [Hxa Hout].
    rewrite Hxa. cbn [andb]. cbn [no_opening] in Hq.
    apply andb_prop in Hq as [_ Hq]. exact (IH Hq fuel n s Hout).
Qed.
End Reflect.

(** *** The pattern for status 200 matches at every cast with status 200 *)

Lemma greedy_spaces (k : cont) (b : N) (tail : text) :
  is_space b = false ->
  forall (ws : text) (c : caps),
    forallb is_space ws = true -> (1 <= length ws)%nat ->
    (exists m, k (b :: tail) c = Some m) ->
    exists m, rmatch (plus (Chr Space)) (ws ++ b :: tail) c k = Some m.
Proof.
  intros Hb ws c Hws Hlen Hk. unfold plus. cbn [rmatch].
  match goal with
  | |- exists m, ?F _ _ _ _ = Some m => set (iter := F)
  end.
  assert (Hstop : forall (n : nat) (s : text) (c : caps),
            iter O n s c = if Nat.leb 1 n then k s c else None)
    by (intros; reflexivity).
  assert (Hmore : forall (fuel n : nat) (s : text) (c : caps),
            iter (S fuel) n s c
            = match
                rmatch (Chr Space) s c
                  (fun s' c' =>
                     if Nat.ltb (length s') (length s)
                     then iter fuel (S n) s' c'
                     else None)
              with
              | Some m => Some m
              | None => if Nat.leb 1 n then k s c else None
              end)
    by (intros; reflexivity).
  clearbody iter.
  assert (Hiter : forall (ws : text) (fuel n : nat),
            forallb is_space ws = true -> (1 <= n + length ws)%nat ->
            (length ws <= fuel)%nat ->
            exists m, iter fuel n (ws ++ b :: tail) c = Some m).
  { clear ws Hws Hlen. induction ws as [|a ws IH]; intros fuel n Hws Hn Hf.
    - cbn [app length] in *.
      assert (Hle : Nat.leb 1 n = true) by (apply Nat.leb_le; lia).
      destruct fuel as [|fuel]; [rewrite Hstop, Hle; exact Hk|].
      rewrite Hmore. cbn [rmatch cset_mem]. rewrite Hb, Hle. exact Hk.
    - cbn [forallb] in Hws. apply andb_prop in Hws as [Ha Hws].
      destruct fuel as [|fuel]; [cbn [length] in Hf; lia|].
      rewrite Hmore. cbn [app rmatch cset_mem]. rewrite Ha.
      assert (Hlt : Nat.ltb (length (ws ++ b :: tail))
                      (length (a :: ws ++ b :: tail)) = true)
        by (apply Nat.ltb_lt; cbn [length]; lia).
      rewrite Hlt.
      destruct (IH fuel (S n) Hws) as [m Hm];
        [cbn [length] in *; lia | cbn [length] in *; lia|].
      rewrite Hm. exists m. reflexivity. }
  apply Hiter; [exact Hws | lia | rewrite length_app; lia].
Qed.

Lemma success_complete (ws rest : text) :
  forallb is_space ws = true -> (1 <= length ws)%nat ->
  match_here false success_re
    (await_text ++ any_text ++ ws ++ expect_text ++ T "200)" ++ rest)
  <> None.
Proof.
  intros Hws Hlen.
  cut (exists m,
         match_here false success_re
           (await_text ++ any_text ++ ws ++ expect_text ++ T "200)" ++ rest)
         = Some m).
  { intros [m ->]. discriminate. }
  unfold match_here, success_re, status_re, await_json.
  change (rmatch (?r1 +> ?r2) ?s ?c ?k)
    with (rmatch r1 s c (fun s' c' => rmatch r2 s' c' k)).
  change (rmatch (Group ?g ?r1) ?s ?c ?k)
    with (rmatch r1 s c
            (fun s' c' =>
               k s' (set_group g (firstn (length s - length s') s) c'))).
  rewrite rmatch_lit.
  change (T "(await res.json())") with await_text.
  rewrite starts_with_app, skipn_app_exact. cbv beta.
  rewrite rmatch_seq_lit.
  change (T " as any;") with any_text.
  rewrite starts_with_app, skipn_app_exact.
  change (rmatch (Group ?g ?r1) ?s ?c ?k)
    with (rmatch r1 s c
            (fun s' c' =>
               k s' (set_group g (firstn (length s - length s') s) c'))).
  change (rmatch (?r1 +> ?r2) ?s ?c ?k)
    with (rmatch r1 s c (fun s' c' => rmatch r2 s' c' k)).
  change (expect_text ++ T "200)" ++ rest)
    with (101 :: (skipn 1 expect_text ++ T "200)" ++ rest)).
  apply greedy_spaces; [reflexivity | exact Hws | exact Hlen|].
  eexists. vm_compute. reflexivity.
Qed.

(** *** The rule for [/ping] comes too late *)

Lemma opens_ping : opens ping_re.
Proof.
  intros s s' c H. apply ping_shape in H as (ws & rest & -> & _).
  reflexivity.
Qed.

Lemma success_codes (code : text) :
  matches (lit (T "200") </> lit (T "201"))%re code ->
  code = T "200" \/ code = T "201".
Proof.
  intros M. apply matches_alt_inv in M as [M|M]; apply matches_lit in M; auto.
Qed.

(** A match of the pattern for status 200 and 201, and what replaces it. *)
Lemma success_hit (s s' : text) (c : caps) :
  match_here false success_re s = Some (s', c) ->
  exists ws code : text,
    s = await_text ++ any_text ++ (ws ++ expect_text ++ code ++ T ")") ++ s'
    /\ cast_to "SuccessResponse" c
       = await_text ++ T " as SuccessResponse;"
         ++ ws ++ expect_text ++ code ++ T ")"
    /\ forallb is_space ws = true
    /\ (code = T "200" \/ code = T "201").
Proof.
  intros H. unfold success_re in H.
  apply status_shape in H as (u & -> & M & G1 & G2);
    [|cbn [groups]; rewrite !groups_lit; reflexivity].
  apply status_tail_shape in M as (ws & code & -> & Hws & _ & Mc).
  exists ws, code. split; [reflexivity|]. split; [|split].
  - unfold cast_to. cbn [expand]. rewrite G1, G2, app_nil_r. reflexivity.
  - exact Hws.
  - exact (success_codes code Mc).
Qed.

Lemma success_repl_opens (s s' : text) (c : caps) :
  match_here false success_re s = Some (s', c) ->
  exists y : text, cast_to "SuccessResponse" c = 40 :: 97 :: y.
Proof.
  intros H. apply success_hit in H as (ws & code & _ & -> & _).
  eexists. reflexivity.
Qed.

Lemma cons_inv (a b : N) (l l' : text) :
  a :: l = b :: l' -> a = b /\ l = l'.
Proof. intros E. injection E. auto. Qed.

Lemma ping_not_at_nil : match_here false ping_re [] = None.
Proof.
  destruct (match_here false ping_re []) as [[s' c]|] eqn:H; [|reflexivity].
  apply ping_shape in H as (ws & rest & H & _). discriminate H.
Qed.

(** After the substitution for status 200 and 201, the pattern for [/ping]
    matches nowhere. *)
Lemma ping_after_success (fuel n : nat) (s : text) :
  (length s < fuel)%nat ->
  search ping_re
    (sub_loop fuel success_re (cast_to "SuccessResponse") 0 n false s)
  = false.
Proof.
  revert n s. induction fuel as [|fuel IH]; intros n s Hlen; [lia|].
  cbn [sub_loop Nat.eqb negb andb].
  destruct (match_here false success_re s) as [[s' c]|] eqn:Hm.
  - destruct (success_hit _ _ _ Hm) as (ws & code & Hs & -> & Hws & Hcode).
    assert (Hlt : (length s' < length s)%nat).
    { rewrite Hs, !length_app. cbn [length await_text T]. lia. }
    apply Nat.ltb_lt in Hlt as Hltb. rewrite Hltb. cbn [negb].
    set (o := sub_loop fuel success_re _ 0 (S n) false s').
    assert (Ho : search ping_re o = false) by (apply IH; lia).
    change (await_text ++ ?x) with (40 :: (skipn 1 await_text ++ x)).
    cbn [app search].
    destruct (match_here false ping_re _) as [[s2 c2]|] eqn:Hp.
    + exfalso. apply ping_shape in Hp as (ws2 & rest & Hp & _).
      apply (f_equal (firstn 23)) in Hp. vm_compute in Hp. discriminate Hp.
    + rewrite <- !app_assoc.
      rewrite (app_assoc (skipn 1 await_text)), (app_assoc _ ws),
        (app_assoc _ expect_text), (app_assoc _ code), (app_assoc _ (T ")")).
      rewrite search_skip_block; [exact Ho | exact opens_ping|].
      rewrite <- !app_assoc.
      rewrite (app_assoc (skipn 1 await_text)).
      apply no_opening_app; [vm_compute; reflexivity|].
      apply no_opening_app; [apply no_opening_spaces; exact Hws|].
      destruct Hcode as [-> | ->]; vm_compute; reflexivity.
  - destruct s as [|a s];
      [cbn [search]; rewrite ping_not_at_nil; reflexivity|].
    set (o := sub_loop fuel success_re _ 0 n false s).
    assert (Ho : search ping_re o = false)
      by (apply IH; cbn [length] in Hlen; lia).
    cbn [search].
    destruct (match_here false ping_re (a :: o)) as [[s2 c2]|] eqn:Hp;
      [|exact Ho].
    exfalso. apply ping_shape in Hp as (ws & rest & Hp & Hws & Hl).
    change (await_text ++ ?x) with (40 :: (skipn 1 await_text ++ x)) in Hp.
    apply cons_inv in Hp as [-> Hp].
    assert (Hq : starts_with
                   ((skipn 1 await_text ++ any_text) ++ ws
                    ++ expect_text ++ T "200)") s = true).
    { apply (sub_reflects success_re (cast_to "SuccessResponse")
               success_repl_opens _) with (fuel := fuel) (n := n).
      - apply no_opening_app; [vm_compute; reflexivity|].
        apply no_opening_app; [apply no_opening_spaces; exact Hws|].
        vm_compute. reflexivity.
      - fold o. rewrite Hp.
        replace (skipn 1 await_text ++ any_text ++ ws ++ expect_text
                 ++ T "200)" ++ rest)
          with (((skipn 1 await_text ++ any_text) ++ ws ++ expect_text
                 ++ T "200)") ++ rest)
          by (rewrite <- !app_assoc; reflexivity).
        apply starts_with_app. }
    apply starts_with_split in Hq.
    remember (skipn (length ((skipn 1 await_text ++ any_text) ++ ws
                             ++ expect_text ++ T "200)")) s) as rest1
      eqn:Er.
    clear Er Hp Ho. clear o. subst s.
    apply (success_complete ws rest1 Hws Hl).
    rewrite <- Hm. f_equal.
    change (await_text ++ ?x) with (40 :: (skipn 1 await_text ++ x)).
    rewrite <- !app_assoc. reflexivity.
Qed.

(** X9: the substitution for [/ping] never changes anything.  It comes
    after the one for status 200 and 201, which has rewritten every cast the
    pattern for [/ping] could match; [fix_any_types] gives what it would give
    without it. *)
Theorem X9_ping_rule_never_applies (t : text) :
  sub ping_re (cast_to "PingResponse")
    (sub success_re (cast_to "SuccessResponse") t)
  = sub success_re (cast_to "SuccessResponse") t
  /\ fix_any_types_text t
     = sub (lit as_any) (expand [TLit generic_cast])
         (sub success_re (cast_to "SuccessResponse")
            (sub error_re (cast_to "ErrorResponse") (add_import t))).
Proof.
  assert (H : forall t : text,
            sub ping_re (cast_to "PingResponse")
              (sub success_re (cast_to "SuccessResponse") t)
            = sub success_re (cast_to "SuccessResponse") t).
  { intros t0. unfold sub at 1. unfold sub_count.
    apply sub_loop_no_match. unfold sub, sub_count.
    apply ping_after_success. lia. }
  split; [apply H|].
  unfold fix_any_types_text. rewrite H. reflexivity.
Qed.

(** A test of [/ping] gets the type of a success response. *)
Example ping_test_gets_success :
  fix_any_types_text
    (T "import type { SuccessResponse } from 'x';" ++ nl
     ++ T "const r = (await res.json()) as any;" ++ nl
     ++ T "expect(res.status).toBe(200);" ++ nl
     ++ T "expect(r).toEqual({ status: 'ok' });")
  = T "import type { SuccessResponse } from 'x';" ++ nl
    ++ T "const r = (await res.json()) as SuccessResponse;" ++ nl
    ++ T "expect(res.status).toBe(200);" ++ nl
    ++ T "expect(r).toEqual({ status: 'ok' });".
Proof. vm_compute. reflexivity. Qed.

(** *** The import step *)

Lemma contains_cons (p : text) (a : N) (s : text) :
  contains p s = true -> contains p (a :: s) = true.
Proof. intros H. cbn [contains]. rewrite H. apply orb_true_r. Qed.

(** The first match of a substitution: the text before it is kept and the
    replacement follows; when at most one match is replaced, the text after
    the match is kept too. *)
Lemma sub_loop_first (r : regex) (repl : caps -> text) (count : nat) :
  forall (fuel : nat) (t : text),
    (length t < fuel)%nat ->
    search r t = true ->
    exists (pre s s' o : text) (c : caps),
      t = pre ++ s /\ match_here false r s = Some (s', c)
      /\ sub_loop fuel r repl count 0 false t = pre ++ repl c ++ o
      /\ (count = 1%nat -> o = s').
Proof.
  induction fuel as [|fuel IH]; intros t Hlen Hs; [lia|].
  cbn [sub_loop].
  assert (Hg : negb (Nat.eqb count 0) && Nat.leb count 0 = false).
  { destruct count; reflexivity. }
  rewrite Hg.
  destruct (match_here false r t) as [[s' c]|] eqn:Hm.
  - exists [], t, s',
      (sub_loop fuel r repl count 1
         (negb (Nat.ltb (length s') (length t))) s'), c.
    split; [reflexivity|]. split; [exact Hm|]. split; [reflexivity|].
    intros ->. destruct fuel; reflexivity.
  - destruct t as [|a t]; cbn [search] in Hs; rewrite Hm in Hs;
      [discriminate|].
    destruct (IH t) as (pre & s & s' & o & c & -> & Hm' & Ho & Hone);
      [cbn [length] in Hlen; lia | exact Hs|].
    exists (a :: pre), s, s', o, c. split; [reflexivity|].
    split; [exact Hm'|]. split; [rewrite Ho; reflexivity | exact Hone].
Qed.

Lemma matches_chr_inv (cs : cset) (u : text) :
  matches (Chr cs) u -> exists a : N, u = [a] /\ cset_mem cs a = true.
Proof. intros H. inversion H; subst. eauto. Qed.

Lemma quote_not_newline (a : N) :
  cset_mem (OneOf [squote; dquote]) a = true -> negb (N.eqb a 10) = true.
Proof.
  cbn [cset_mem existsb]. intros H.
  apply orb_prop in H as [H|H]; [|apply orb_prop in H as [H|H]];
    [| |discriminate H]; apply N.eqb_eq in H; subst a; reflexivity.
Qed.

(** A match of the pattern for any import: group 1 is an import statement
    and a newline follows it. *)
Lemma any_import_shape (s s' : text) (c : caps) :
  match_here false any_import_re s = Some (s', c) ->
  exists g : text,
    s = g ++ nl ++ s' /\ group 1 c = g /\ matches import_statement g.
Proof.
  intros H. unfold match_here, any_import_re in H.
  change (rmatch (?r1 +> ?r2) ?s ?c ?k)
    with (rmatch r1 s c (fun s' c' => rmatch r2 s' c' k)) in H.
  apply rmatch_group_sound in H as (g & s1 & ext & -> & M & _ & H).
  rewrite rmatch_lit in H.
  destruct (starts_with nl s1) eqn:Hs1; [|discriminate].
  rewrite (starts_with_split _ _ Hs1).
  cbn [andb] in H. inversion H; subst s' c.
  exists g. split; [reflexivity|]. split; [reflexivity | exact M].
Qed.

Lemma import_statement_shape (g : text) :
  matches import_statement g ->
  starts_with (T "import ") g = true /\ no_newline g = true.
Proof.
  unfold import_statement, quote, plus. intros M.
  apply matches_lit_seq in M as (u1 & -> & M).
  apply matches_seq_inv in M as (x1 & u2 & -> & Mx1 & M).
  apply matches_lit_seq in M as (u3 & -> & M).
  apply matches_seq_inv in M as (q1 & u4 & -> & Mq1 & M).
  apply matches_seq_inv in M as (x2 & u5 & -> & Mx2 & M).
  apply matches_seq_inv in M as (q2 & u6 & -> & Mq2 & M).
  apply matches_lit in M as ->.
  apply matches_chars in Mx1 as [Hx1 _]. apply matches_chars in Mx2 as [Hx2 _].
  apply matches_chr_inv in Mq1 as (a1 & -> & Ha1).
  apply matches_chr_inv in Mq2 as (a2 & -> & Ha2).
  split; [apply starts_with_app|].
  unfold no_newline. rewrite !forallb_app. cbn [forallb].
  rewrite (quote_not_newline a1 Ha1), (quote_not_newline a2 Ha2).
  change (forallb (fun a => negb (N.eqb a 10)) x1)
    with (forallb (cset_mem Dot) x1).
  change (forallb (fun a => negb (N.eqb a 10)) x2)
    with (forallb (cset_mem Dot) x2).
  rewrite Hx1, Hx2. vm_compute. reflexivity.
Qed.

(** A match of the pattern for the import of the types: group 1 is the
    whole match, and it holds [} from]. *)
Lemma import_pattern_shape (s s' : text) (c : caps) :
  match_here false import_pattern s = Some (s', c) ->
  exists g : text,
    s = g ++ s' /\ group 1 c = g /\ contains (T "} from") g = true.
Proof.
  intros H. unfold match_here, import_pattern in H.
  apply rmatch_group_sound in H as (g & s1 & ext & -> & M & _ & H).
  cbn [andb] in H. inversion H; subst s' c.
  exists g. split; [reflexivity|]. split; [reflexivity|].
  apply matches_lit_seq in M as (u1 & -> & M).
  apply matches_seq_inv in M as (x & u2 & -> & _ & M).
  apply matches_lit_seq in M as (u3 & -> & _).
  apply contains_app_r, contains_app_r, contains_app_l.
  vm_compute. reflexivity.
Qed.

(** [str.replace] puts the new text in when the old one occurs. *)
Lemma str_replace_contains (x old new s : text) :
  contains x new = true -> old <> [] -> contains old s = true ->
  contains x (str_replace old new s) = true.
Proof.
  intros Hx Hold. unfold str_replace.
  induction s as [|a s IH]; intros Hc.
  - cbn [contains] in Hc. rewrite orb_false_r in Hc.
    destruct old; [destruct (Hold eq_refl) | discriminate Hc].
  - cbn [replace_from]. destruct (starts_with old (a :: s)) eqn:Hs.
    + apply contains_app_l. exact Hx.
    + cbn [contains] in Hc. rewrite Hs in Hc. cbn [orb] in Hc.
      apply contains_cons, IH, Hc.
Qed.

Lemma extend_import_names (s s' : text) (c : caps) :
  match_here false import_pattern s = Some (s', c) ->
  contains (T "SuccessResponse") (extend_import c) = true.
Proof.
  intros H. apply import_pattern_shape in H as (g & _ & Hg1 & Hg).
  unfold extend_import. rewrite Hg1. apply str_replace_contains;
    [vm_compute; reflexivity | discriminate | exact Hg].
Qed.

Lemma new_import_names (c : caps) :
  contains (T "SuccessResponse") (new_import_repl c) = true.
Proof.
  unfold new_import_repl. cbn [expand].
  apply contains_app_r, contains_app_r, contains_app_l.
  vm_compute. reflexivity.
Qed.

Lemma search_true (r : regex) (t : text) :
  search r t <> false -> search r t = true.
Proof. destruct (search r t); [reflexivity | intros H; destruct (H eq_refl)]. Qed.

(** X10: when [fix_any_types] adds a new import line, it adds one line and
    removes nothing.  On a text that names neither [SuccessResponse] nor
    [ErrorResponse] and has no import of the types to extend, the import step
    returns the text as it is when no import statement is followed by a
    newline; otherwise the text is [pre ++ g ++ newline ++ b], where [g] is an
    import statement on one line, and the step returns it with the new
    import line and a newline put in before [b]. *)
Theorem X10_new_import_is_one_line (t : text) :
  contains (T "SuccessResponse") t = false ->
  contains (T "ErrorResponse") t = false ->
  search import_pattern t = false ->
  (search any_import_re t = false /\ add_import t = t)
  \/ (exists pre g b : text,
        t = pre ++ g ++ nl ++ b
        /\ starts_with (T "import ") g = true
        /\ no_newline g = true
        /\ add_import t = pre ++ g ++ nl ++ new_import_line ++ nl ++ b).
Proof.
  intros HS HE Hp. unfold add_import. rewrite HS, HE, Hp. cbn [negb andb].
  destruct (search any_import_re t) eqn:Ha.
  - right. unfold sub_count.
    destruct (sub_loop_first any_import_re new_import_repl 1
                (2 * length t + 2) t) as (pre & s & s' & o & c & -> & Hm & -> & Ho);
      [lia | exact Ha|].
    rewrite (Ho eq_refl).
    apply any_import_shape in Hm as (g & -> & Hg & M).
    apply import_statement_shape in M as [Hstart Hnl].
    exists pre, g, s'. split; [reflexivity|]. split; [exact Hstart|].
    split; [exact Hnl|].
    unfold new_import_repl. cbn [expand]. rewrite Hg.
    change (T "import type { SuccessResponse, ErrorResponse, PingResponse } from '../../src/types/index.js';")
      with new_import_line.
    rewrite app_nil_r, <- !app_assoc. reflexivity.
  - left. split; [reflexivity|]. unfold sub_count.
    apply sub_loop_no_match. exact Ha.
Qed.

Lemma X10_witness :
  (search any_import_re (T "import a from 'b';" ++ nl ++ T "x") = false
   /\ add_import (T "import a from 'b';" ++ nl ++ T "x")
      = T "import a from 'b';" ++ nl ++ T "x")
  \/ (exists pre g b : text,
        T "import a from 'b';" ++ nl ++ T "x" = pre ++ g ++ nl ++ b
        /\ starts_with (T "import ") g = true
        /\ no_newline g = true
        /\ add_import (T "import a from 'b';" ++ nl ++ T "x")
           = pre ++ g ++ nl ++ new_import_line ++ nl ++ b).
Proof.
  apply (X10_new_import_is_one_line (T "import a from 'b';" ++ nl ++ T "x"));
    vm_compute; reflexivity.
Defined.

(** X11: the import step does its work once.  Whenever it changes a text,
    the result names [SuccessResponse], so the step returns its own result as
    it is: running it again adds nothing. *)
Theorem X11_import_added_once (t : text) :
  (add_import t = t
   \/ contains (T "SuccessResponse") (add_import t) = true)
  /\ add_import (add_import t) = add_import t.
Proof.
  assert (H : add_import t = t
              \/ contains (T "SuccessResponse") (add_import t) = true).
  { unfold add_import.
    destruct (negb (contains (T "SuccessResponse") t)
              && negb (contains (T "ErrorResponse") t)); [|left; reflexivity].
    destruct (search import_pattern t) eqn:Hp.
    - right. unfold sub, sub_count.
      destruct (sub_loop_first import_pattern extend_import 0
                  (2 * length t + 2) t)
        as (pre & s & s' & o & c & -> & Hm & -> & _); [lia | exact Hp|].
      apply contains_app_r, contains_app_l.
      exact (extend_import_names _ _ _ Hm).
    - destruct (search any_import_re t) eqn:Ha.
      + right. unfold sub_count.
        destruct (sub_loop_first any_import_re new_import_repl 1
                    (2 * length t + 2) t)
          as (pre & s & s' & o & c & -> & Hm & -> & _); [lia | exact Ha|].
        apply contains_app_r, contains_app_l, new_import_names.
      + left. unfold sub_count. apply sub_loop_no_match. exact Ha. }
  split; [exact H|].
  destruct H as [Heq | H]; [rewrite Heq; exact Heq|].
  apply add_import_without. left. rewrite H. reflexivity.
Qed.

(** *** Every cast gets a type *)

Section SubRel.
(** A relation between a text and what a substitution makes of it: it holds
    of a text and itself, goes through a character that is kept, and through
    a match and its replacement; every match consumes something. *)
Variables (R : text -> text -> Prop) (r : regex) (repl : caps -> text).
Hypothesis R_refl : forall s : text, R s s.
Hypothesis R_keep :
  forall (a : N) (s o : text), R s o -> R (a :: s) (a :: o).
Hypothesis R_hit :
  forall (s s' : text) (c : caps),
    match_here false r s = Some (s', c) ->
    (length s' < length s)%nat
    /\ forall o : text, R s' o -> R s (repl c ++ o).

Lemma sub_loop_rel (fuel count n : nat) (s : text) :
  R s (sub_loop fuel r repl count n false s).
Proof.
  revert n s. induction fuel as [|fuel IH]; intros n s; [apply R_refl|].
  cbn [sub_loop].
  destruct (negb (Nat.eqb count 0) && Nat.leb count n); [apply R_refl|].
  destruct (match_here false r s) as [[s' c]|] eqn:Hm.
  - destruct (R_hit s s' c Hm) as [Hlt Hr].
    apply Nat.ltb_lt in Hlt. rewrite Hlt. cbn [negb]. apply Hr, IH.
  - destruct s as [|a s]; [apply R_refl|]. apply R_keep, IH.
Qed.
End SubRel.

Lemma typed_from_refl (s : text) : typed_from s s.
Proof. induction s as [|a s IH]; constructor; exact IH. Qed.

Lemma typed_from_app_keep (x s o : text) :
  typed_from s o -> typed_from (x ++ s) (x ++ o).
Proof.
  intros H. induction x as [|a x IH]; [exact H|].
  cbn [app]. constructor. exact IH.
Qed.

(** A match of a cast pattern and its replacement: one [) as any;] gets the
    type, the rest of the match is kept. *)
Lemma status_hit (ty : string) (codes : regex) (s s' : text) (c : caps) :
  groups codes = [] -> In (T ty) cast_types ->
  match_here false (status_re codes) s = Some (s', c) ->
  (length s' < length s)%nat
  /\ forall o : text, typed_from s' o -> typed_from s (cast_to ty c ++ o).
Proof.
  intros Hg Hty H.
  apply status_shape in H as (u & -> & _ & H1 & H2); [|exact Hg].
  split.
  { rewrite !length_app. cbn [length await_text T]. lia. }
  intros o Ho. unfold cast_to. cbn [expand]. rewrite H1, H2.
  replace (await_text ++ any_text ++ u ++ s')
    with (T "(await res.json()" ++ as_any ++ (u ++ s')) by reflexivity.
  replace ((await_text ++ T " as " ++ T ty ++ T ";" ++ u ++ []) ++ o)
    with (T "(await res.json()" ++ typed_cast (T ty) ++ (u ++ o)).
  - apply typed_from_app_keep. apply TF_cast; [exact Hty|].
    apply typed_from_app_keep. exact Ho.
  - unfold typed_cast. rewrite app_nil_r, <- !app_assoc. reflexivity.
Qed.

Lemma generic_hit (s s' : text) (c : caps) :
  match_here false (lit as_any) s = Some (s', c) ->
  (length s' < length s)%nat
  /\ forall o : text,
       typed_from s' o -> typed_from s (expand [TLit generic_cast] c ++ o).
Proof.
  intros H. change as_any with (41 :: T " as any;") in H.
  rewrite match_here_lit in H.
  destruct (starts_with (41 :: T " as any;") s) eqn:Hs; [|discriminate].
  apply starts_with_split in Hs.
  set (rest := skipn (length (41 :: T " as any;")) s) in *.
  clearbody rest. inversion H; subst s' c. clear H. subst s. split.
  { rewrite length_app. change (length (41 :: T " as any;")) with 9%nat.
    lia. }
  intros o Ho. cbn [expand]. rewrite app_nil_r.
  exact (TF_cast (T "SuccessResponse | ErrorResponse") rest o
           (or_intror (or_intror (or_intror (or_introl eq_refl)))) Ho).
Qed.

(** The substitution for [/ping] changes nothing of what the one for status
    200 and 201 leaves. *)
Lemma ping_sub_nothing (t : text) :
  sub ping_re (cast_to "PingResponse")
    (sub success_re (cast_to "SuccessResponse") t)
  = sub success_re (cast_to "SuccessResponse") t.
Proof.
  unfold sub at 1. unfold sub_count.
  apply sub_loop_no_match. unfold sub, sub_count.
  apply ping_after_success. lia.
Qed.

Lemma typed_from_inv (s o : text) :
  typed_from s o ->
  (s = [] /\ o = [])
  \/ (exists (a : N) (s0 o0 : text),
        s = a :: s0 /\ o = a :: o0 /\ typed_from s0 o0)
  \/ (exists ty s0 o0 : text,
        In ty cast_types /\ s = as_any ++ s0 /\ o = typed_cast ty ++ o0
        /\ typed_from s0 o0).
Proof.
  intros [|a s0 o0 H0|ty s0 o0 Hty H0]; [left; auto | right; left | right; right].
  - exists a, s0, o0. auto.
  - exists ty, s0, o0. auto.
Qed.

Lemma typed_from_keeps (q : text) :
  forallb (fun a => negb (N.eqb a 41)) q = true ->
  forall r o : text,
    typed_from (q ++ r) o ->
    exists o' : text, o = q ++ o' /\ typed_from r o'.
Proof.
  induction q as [|a q IH]; intros Hq r o H; [exists o; auto|].
  cbn [forallb] in Hq. apply andb_prop in Hq as [Ha Hq].
  cbn [app] in H.
  apply typed_from_inv in H
    as [[Hs _] | [(a' & s0 & o0 & Hs & -> & H0)
                 | (ty & s0 & o0 & Hty & Hs & -> & H0)]].
  - discriminate Hs.
  - inversion Hs; subst a' s0.
    destruct (IH Hq r o0 H0) as (o' & -> & Ho'). exists o'. auto.
  - change as_any with (41 :: T " as any;") in Hs. cbn [app] in Hs.
    inversion Hs; subst a. discriminate Ha.
Qed.

Lemma typed_from_source (q : text) :
  forallb (fun a => negb (N.eqb a 41)) q = true ->
  forall s r : text,
    typed_from s (q ++ r) ->
    exists s' : text, s = q ++ s' /\ typed_from s' r.
Proof.
  induction q as [|a q IH]; intros Hq s r H; [exists s; auto|].
  cbn [forallb] in Hq. apply andb_prop in Hq as [Ha Hq].
  cbn [app] in H.
  apply typed_from_inv in H
    as [[_ Ho] | [(a' & s0 & o0 & -> & Ho & H0)
                 | (ty & s0 & o0 & Hty & -> & Ho & H0)]].
  - discriminate Ho.
  - inversion Ho; subst a' o0.
    destruct (IH Hq s0 r H0) as (s' & -> & Hs'). exists s'. auto.
  - unfold typed_cast in Ho. cbn [T app] in Ho.
    change (T ") as ") with (41 :: T " as ") in Ho. cbn [app] in Ho.
    inversion Ho; subst a. discriminate Ha.
Qed.

Lemma typed_cast_not_any (ty o r : text) :
  In ty cast_types -> typed_cast ty ++ o <> as_any ++ r.
Proof.
  intros Hty Heq.
  destruct Hty as [<-|[<-|[<-|[<-|[]]]]];
    apply (f_equal (firstn 6)) in Heq; vm_compute in Heq; discriminate Heq.
Qed.

Lemma typed_cast_tail (ty : text) :
  In ty cast_types ->
  exists q : text,
    typed_cast ty = 41 :: q
    /\ forallb (fun a => negb (N.eqb a 41)) q = true.
Proof.
  intros Hty.
  destruct Hty as [<-|[<-|[<-|[<-|[]]]]]; eexists;
    (split; [vm_compute; reflexivity | vm_compute; reflexivity]).
Qed.

(** One substitution after the other. *)
Lemma typed_from_trans_n (n : nat) :
  forall s o1 o2 : text,
    (length s <= n)%nat ->
    typed_from s o1 -> typed_from o1 o2 -> typed_from s o2.
Proof.
  induction n as [|n IH]; intros s o1 o2 Hlen H1 H2.
  - destruct s; [|cbn [length] in Hlen; lia].
    apply typed_from_inv in H1
      as [[_ ->] | [(a & s0 & o0 & Hs & _) | (ty & s0 & o0 & _ & Hs & _)]].
    + exact H2.
    + discriminate Hs.
    + discriminate Hs.
  - apply typed_from_inv in H1
      as [[-> ->] | [(a & s0 & o0 & -> & -> & H0)
                    | (ty & s0 & o0 & Hty & -> & -> & H0)]].
    + exact H2.
    + cbn [length] in Hlen.
      apply typed_from_inv in H2
        as [[Hs _] | [(a' & s1 & o1' & Hs & -> & H0')
                     | (ty & s1 & o1' & Hty & Hs & -> & H0')]].
      * discriminate Hs.
      * inversion Hs; subst a' s1. constructor.
        apply (IH s0 o0 o1'); [lia | exact H0 | exact H0'].
      * change as_any with (41 :: T " as any;") in Hs. cbn [app] in Hs.
        inversion Hs; subst a o0.
        destruct (typed_from_source (T " as any;") eq_refl s0 s1 H0)
          as (s' & -> & Hs').
        apply (TF_cast ty s' o1' Hty).
        apply (IH s' s1 o1');
          [rewrite length_app in Hlen; lia | exact Hs' | exact H0'].
    + destruct (typed_cast_tail ty Hty) as (q & Eq & Hq).
      rewrite Eq in H2. cbn [app] in H2.
      apply typed_from_inv in H2
        as [[Hs _] | [(a' & s1 & o1' & Hs & -> & H0')
                     | (ty' & s1 & o1' & Hty' & Hs & -> & H0')]].
      * discriminate Hs.
      * inversion Hs; subst a' s1.
        destruct (typed_from_keeps q Hq o0 o1' H0') as (o' & -> & Ho').
        change (41 :: q ++ o') with ((41 :: q) ++ o'). rewrite <- Eq.
        apply (TF_cast ty s0 o' Hty).
        apply (IH s0 o0 o'); [|exact H0 | exact Ho'].
        rewrite length_app in Hlen.
        change (length as_any) with 9%nat in Hlen. lia.
      * exfalso. apply (typed_cast_not_any ty o0 s1 Hty).
        rewrite Eq. cbn [app]. exact Hs.
Qed.

Lemma typed_from_trans (s o1 o2 : text) :
  typed_from s o1 -> typed_from o1 o2 -> typed_from s o2.
Proof. apply (typed_from_trans_n (length s)). lia. Qed.

(** What the four substitutions make of a text. *)
Lemma casts_typed_from (t : text) :
  typed_from t
    (sub (lit as_any) (expand [TLit generic_cast])
       (sub ping_re (cast_to "PingResponse")
          (sub success_re (cast_to "SuccessResponse")
             (sub error_re (cast_to "ErrorResponse") t)))).
Proof.
  rewrite ping_sub_nothing.
  eapply typed_from_trans; [|eapply typed_from_trans].
  - unfold sub, sub_count.
    apply (sub_loop_rel typed_from error_re (cast_to "ErrorResponse")
             typed_from_refl TF_keep).
    intros s s' c. apply status_hit; [reflexivity|]. left. reflexivity.
  - unfold sub, sub_count.
    apply (sub_loop_rel typed_from success_re (cast_to "SuccessResponse")
             typed_from_refl TF_keep).
    intros s s' c. apply status_hit; [reflexivity|]. right. left. reflexivity.
  - unfold sub, sub_count.
    apply (sub_loop_rel typed_from (lit as_any) (expand [TLit generic_cast])
             typed_from_refl TF_keep).
    exact generic_hit.
Qed.

Lemma contains_app_false_r (p a b : text) :
  contains p (a ++ b) = false -> contains p b = false.
Proof.
  intros H. destruct (contains p b) eqn:E; [|reflexivity].
  rewrite (contains_app_r p a b E) in H. discriminate H.
Qed.

(** When no [) as any;] is left, every one was replaced. *)
Lemma typed_all (s o : text) :
  typed_from s o -> contains as_any o = false -> all_typed s o.
Proof.
  induction 1 as [|a s o H IH|ty s o Hty H IH]; intros Hc.
  - constructor.
  - constructor; [|apply IH; exact (contains_tail _ _ _ Hc)].
    destruct (starts_with as_any (a :: s)) eqn:Hs; [|reflexivity].
    exfalso. pose proof (starts_with_split _ _ Hs) as Es.
    set (rest := skipn (length as_any) (a :: s)) in Es. clearbody rest.
    change as_any with (41 :: T " as any;") in Es. cbn [app] in Es.
    inversion Es; subst a s.
    destruct (typed_from_keeps (T " as any;") eq_refl rest o H)
      as (o' & -> & _).
    change (41 :: T " as any;" ++ o') with (as_any ++ o') in Hc.
    rewrite (contains_app_l as_any as_any o' (contains_refl _)) in Hc.
    discriminate Hc.
  - constructor; [exact Hty|]. apply IH.
    exact (contains_app_false_r _ _ _ Hc).
Qed.

(** *** What the import step puts in *)

Lemma imports_added_refl (s : text) : imports_added s s.
Proof. induction s as [|a s IH]; constructor; exact IH. Qed.

Lemma imports_added_app_keep (x s o : text) :
  imports_added s o -> imports_added (x ++ s) (x ++ o).
Proof.
  intros H. induction x as [|a x IH]; [exact H|].
  cbn [app]. constructor. exact IH.
Qed.

Lemma replace_from_skip (old new q s : text) :
  replace_from old new (length q) (q ++ s) = replace_from old new 0 s.
Proof. induction q as [|a q IH]; [reflexivity | exact IH]. Qed.

Lemma replace_from_free (h : N) (old new u s : text) :
  forallb (fun a => negb (N.eqb h a)) u = true ->
  replace_from (h :: old) new 0 (u ++ s)
  = u ++ replace_from (h :: old) new 0 s.
Proof.
  induction u as [|a u IH]; intros Hu; [reflexivity|].
  cbn [forallb] in Hu. apply andb_prop in Hu as [Ha Hu].
  apply negb_true_iff in Ha.
  cbn [app replace_from starts_with]. rewrite Ha. cbn [andb].
  f_equal. exact (IH Hu).
Qed.

Lemma replace_from_hit (h : N) (old new v : text) :
  replace_from (h :: old) new 0 ((h :: old) ++ v)
  = new ++ replace_from (h :: old) new 0 v.
Proof.
  cbn [app replace_from].
  change (h :: old ++ v) with ((h :: old) ++ v).
  rewrite starts_with_app. cbn [length Nat.pred].
  rewrite replace_from_skip. reflexivity.
Qed.

(** What [import_pattern] matches: one closing brace, before [ from]. *)
Lemma types_import_shape (g : text) :
  matches types_import g ->
  exists x v : text,
    g = T "import type {" ++ x ++ T "} from" ++ v
    /\ forallb (fun a => negb (N.eqb rbrace a)) x = true
    /\ forallb (fun a => negb (N.eqb rbrace a)) v = true.
Proof.
  unfold types_import, quote, plus. intros M.
  apply matches_lit_seq in M as (u1 & -> & M).
  apply matches_seq_inv in M as (x & u2 & -> & Mx & M).
  apply matches_lit_seq in M as (u3 & -> & M).
  apply matches_seq_inv in M as (q1 & u4 & -> & Mq1 & M).
  apply matches_lit_seq in M as (u5 & -> & M).
  apply matches_seq_inv in M as (q2 & u6 & -> & Mq2 & M).
  apply matches_lit in M as ->.
  apply matches_chars in Mx as [Hx _].
  apply matches_chr_inv in Mq1 as (a1 & -> & Ha1).
  apply matches_chr_inv in Mq2 as (a2 & -> & Ha2).
  exists x, (T " " ++ [a1] ++ T "../../src/types/index.js" ++ [a2] ++ T ";").
  split; [reflexivity|]. split; [exact Hx|].
  assert (Hq : forall a : N,
            cset_mem (OneOf [squote; dquote]) a = true ->
            negb (N.eqb rbrace a) = true).
  { intros a. cbn [cset_mem existsb]. intros H.
    apply orb_prop in H as [H|H]; [|apply orb_prop in H as [H|H]];
      [| |discriminate H]; apply N.eqb_eq in H; subst a; reflexivity. }
  rewrite !forallb_app. cbn [forallb]. rewrite (Hq a1 Ha1), (Hq a2 Ha2).
  vm_compute. reflexivity.
Qed.

Lemma extend_hit (s s' : text) (c : caps) :
  match_here false import_pattern s = Some (s', c) ->
  (length s' < length s)%nat
  /\ forall o : text,
       imports_added s' o -> imports_added s (extend_import c ++ o).
Proof.
  intros H. unfold match_here, import_pattern in H.
  apply rmatch_group_sound in H as (g & s1 & ext & -> & M & _ & H).
  cbn [andb] in H. inversion H; subst s' c. clear H.
  assert (Hg : extend_import
                 (set_group 0 (firstn (length (g ++ s1) - length s1) (g ++ s1))
                    ((1%nat, g) :: ext ++ []))
               = str_replace (T "} from")
                   (T ", SuccessResponse, ErrorResponse, PingResponse } from")
                   g) by reflexivity.
  rewrite Hg. clear Hg.
  apply types_import_shape in M as (x & v & -> & Hx & Hv).
  split.
  { rewrite !length_app. change (length (T "import type {")) with 13%nat.
    lia. }
  intros o Ho.
  assert (E : str_replace (T "} from")
                (T ", SuccessResponse, ErrorResponse, PingResponse } from")
                (T "import type {" ++ x ++ T "} from" ++ v)
              = T "import type {" ++ x ++ import_names ++ T "} from" ++ v).
  { unfold str_replace. change (T "} from") with (rbrace :: T " from").
    rewrite (replace_from_free rbrace _ _ (T "import type {"))
      by (vm_compute; reflexivity).
    rewrite (replace_from_free rbrace _ _ x) by exact Hx.
    rewrite replace_from_hit.
    rewrite <- (app_nil_r v) at 1.
    rewrite (replace_from_free rbrace _ _ v) by exact Hv.
    cbn [replace_from]. rewrite app_nil_r.
    change (T ", SuccessResponse, ErrorResponse, PingResponse } from")
      with (import_names ++ rbrace :: T " from").
    rewrite <- !app_assoc. reflexivity. }
  rewrite E, <- !app_assoc.
  apply imports_added_app_keep, imports_added_app_keep.
  change (T "} from" ++ ?y) with (rbrace :: T " from" ++ y).
  apply IA_import; [left; reflexivity | reflexivity|].
  apply IA_keep, imports_added_app_keep, imports_added_app_keep. exact Ho.
Qed.

Lemma new_import_hit (s s' : text) (c : caps) :
  match_here false any_import_re s = Some (s', c) ->
  (length s' < length s)%nat
  /\ forall o : text,
       imports_added s' o -> imports_added s (new_import_repl c ++ o).
Proof.
  intros H. apply any_import_shape in H as (g & -> & Hg & _).
  split.
  { rewrite !length_app. cbn [length nl]. lia. }
  intros o Ho. unfold new_import_repl. cbn [expand]. rewrite Hg.
  change (T "import type { SuccessResponse, ErrorResponse, PingResponse } from '../../src/types/index.js';")
    with new_import_line.
  replace ((g ++ nl ++ new_import_line ++ nl ++ []) ++ o)
    with (g ++ (nl ++ new_import_line) ++ 10 :: o).
  - apply imports_added_app_keep.
    change (nl ++ s') with (10 :: s').
    apply IA_import; [right; left; reflexivity | reflexivity|].
    apply IA_keep. exact Ho.
  - rewrite app_nil_r, <- !app_assoc. reflexivity.
Qed.

(** The import step keeps every character of the text and puts its own
    texts in. *)
Lemma add_import_added (t : text) : imports_added t (add_import t).
Proof.
  unfold add_import.
  destruct (negb (contains (T "SuccessResponse") t)
            && negb (contains (T "ErrorResponse") t));
    [|apply imports_added_refl].
  destruct (search import_pattern t); unfold sub, sub_count.
  - exact (sub_loop_rel imports_added import_pattern extend_import
             imports_added_refl IA_keep extend_hit _ _ _ _).
  - exact (sub_loop_rel imports_added any_import_re new_import_repl
             imports_added_refl IA_keep new_import_hit _ _ _ _).
Qed.

(** *** The import step and the four substitutions together *)

Lemma imports_added_inv (s o : text) :
  imports_added s o ->
  (s = [] /\ o = [])
  \/ (exists (a : N) (s0 o0 : text),
        s = a :: s0 /\ o = a :: o0 /\ imports_added s0 o0)
  \/ (exists (x : text) (b : N) (s0 o0 : text),
        In x import_texts /\ import_place b = true
        /\ s = b :: s0 /\ o = x ++ o0 /\ imports_added (b :: s0) o0).
Proof.
  intros [|a s0 o0 H0|x b s0 o0 Hx Hb H0];
    [left; auto | right; left | right; right].
  - exists a, s0, o0. auto.
  - exists x, b, s0, o0. auto.
Qed.

Lemma all_typed_inv (s o : text) :
  all_typed s o ->
  (s = [] /\ o = [])
  \/ (exists (a : N) (s0 o0 : text),
        s = a :: s0 /\ o = a :: o0
        /\ starts_with as_any (a :: s0) = false /\ all_typed s0 o0)
  \/ (exists ty s0 o0 : text,
        In ty cast_types /\ s = as_any ++ s0 /\ o = typed_cast ty ++ o0
        /\ all_typed s0 o0).
Proof.
  intros [|a s0 o0 Hs H0|ty s0 o0 Hty H0];
    [left; auto | right; left | right; right].
  - exists a, s0, o0. auto.
  - exists ty, s0, o0. auto.
Qed.

(** The texts of the import step start with a comma or a line feed and hold
    no closing parenthesis. *)
Lemma import_text_shape (x : text) :
  In x import_texts ->
  exists (h : N) (q : text),
    x = h :: q /\ (h = 44 \/ h = 10)
    /\ forallb (fun a => negb (N.eqb a 41)) x = true.
Proof.
  intros [<-|[<-|[]]]; eexists; eexists;
    (split; [vm_compute; reflexivity|]);
    (split; [|vm_compute; reflexivity]); [left | right]; reflexivity.
Qed.

(** A stretch of the text in which the import step puts nothing. *)
Lemma imports_added_source (q : text) :
  forallb (fun a => negb (import_place a)) q = true ->
  forall s' o : text,
    imports_added (q ++ s') o ->
    exists o' : text, o = q ++ o' /\ imports_added s' o'.
Proof.
  induction q as [|a q IH]; intros Hq s' o H; [exists o; auto|].
  cbn [forallb] in Hq. apply andb_prop in Hq as [Ha Hq].
  cbn [app] in H.
  apply imports_added_inv in H
    as [[Hs _] | [(a' & s0 & o0 & Hs & -> & H0)
                 | (x & b & s0 & o0 & _ & Hb & Hs & _)]].
  - discriminate Hs.
  - inversion Hs; subst a' s0.
    destruct (IH Hq s' o0 H0) as (o' & -> & Ho'). exists o'. auto.
  - inversion Hs; subst b. rewrite Hb in Ha. discriminate Ha.
Qed.

(** A stretch of the result that is not of the import step. *)
Lemma imports_added_target (q : text) :
  forallb (fun a => negb (N.eqb a 44) && negb (N.eqb a 10)) q = true ->
  forall s r : text,
    imports_added s (q ++ r) ->
    exists s' : text, s = q ++ s' /\ imports_added s' r.
Proof.
  induction q as [|a q IH]; intros Hq s r H; [exists s; auto|].
  cbn [forallb] in Hq. apply andb_prop in Hq as [Ha Hq].
  cbn [app] in H.
  apply imports_added_inv in H
    as [[_ Ho] | [(a' & s0 & o0 & -> & Ho & H0)
                 | (x & b & s0 & o0 & Hx & _ & _ & Ho & _)]].
  - discriminate Ho.
  - inversion Ho; subst a' o0.
    destruct (IH Hq s0 r H0) as (s' & -> & Hs'). exists s'. auto.
  - destruct (import_text_shape x Hx) as (h & q' & -> & Hh & _).
    cbn [app] in Ho. inversion Ho; subst a.
    destruct Hh as [-> | ->]; discriminate Ha.
Qed.

Lemma all_typed_keeps (q : text) :
  forallb (fun a => negb (N.eqb a 41)) q = true ->
  forall r o : text,
    all_typed (q ++ r) o ->
    exists o' : text, o = q ++ o' /\ all_typed r o'.
Proof.
  induction q as [|a q IH]; intros Hq r o H; [exists o; auto|].
  cbn [forallb] in Hq. apply andb_prop in Hq as [Ha Hq].
  cbn [app] in H.
  apply all_typed_inv in H
    as [[Hs _] | [(a' & s0 & o0 & Hs & -> & _ & H0)
                 | (ty & s0 & o0 & Hty & Hs & -> & H0)]].
  - discriminate Hs.
  - inversion Hs; subst a' s0.
    destruct (IH Hq r o0 H0) as (o' & -> & Ho'). exists o'. auto.
  - change as_any with (41 :: T " as any;") in Hs. cbn [app] in Hs.
    inversion Hs; subst a. discriminate Ha.
Qed.

Lemma imports_then_casts_n (n : nat) :
  forall t t1 o : text,
    (length t + length t1 <= n)%nat ->
    imports_added t t1 -> all_typed t1 o -> casts_typed t o.
Proof.
  induction n as [|n IH]; intros t t1 o Hlen H1 H2.
  - destruct t; [|cbn [length] in Hlen; lia].
    destruct t1; [|cbn [length] in Hlen; lia].
    apply all_typed_inv in H2
      as [[_ ->] | [(a & s0 & o0 & Hs & _) | (ty & s0 & o0 & _ & Hs & _)]].
    + constructor.
    + discriminate Hs.
    + discriminate Hs.
  - apply imports_added_inv in H1
      as [[-> ->] | [(a & s & s1 & -> & -> & H0)
                    | (x & b & s & s1 & Hx & Hb & -> & -> & H0)]].
    + apply all_typed_inv in H2
        as [[_ ->] | [(a & s0 & o0 & Hs & _) | (ty & s0 & o0 & _ & Hs & _)]].
      * constructor.
      * discriminate Hs.
      * discriminate Hs.
    + cbn [length] in Hlen.
      apply all_typed_inv in H2
        as [[Hs _] | [(a' & s0 & o0 & Hs & -> & Hno & H0')
                     | (ty & s0 & o0 & Hty & Hs & -> & H0')]].
      * discriminate Hs.
      * inversion Hs; subst a' s0. constructor.
        -- destruct (starts_with as_any (a :: s)) eqn:Hst; [|reflexivity].
           exfalso. pose proof (starts_with_split _ _ Hst) as Es.
           set (rest := skipn (length as_any) (a :: s)) in Es.
           clearbody rest.
           change as_any with (41 :: T " as any;") in Es. cbn [app] in Es.
           apply cons_inv in Es as [-> ->].
           destruct (imports_added_source (T " as any;") eq_refl rest s1 H0)
             as (o' & -> & _).
           change (41 :: T " as any;" ++ o') with (as_any ++ o') in Hno.
           rewrite starts_with_app in Hno. discriminate Hno.
        -- apply (IH s s1 o0); [lia | exact H0 | exact H0'].
      * change as_any with (41 :: T " as any;") in Hs. cbn [app] in Hs.
        apply cons_inv in Hs as [-> ->].
        destruct (imports_added_target (T " as any;") eq_refl s s0 H0)
          as (s' & -> & Hs').
        apply (CT_cast ty s' o0 Hty).
        apply (IH s' s0 o0); [|exact Hs' | exact H0'].
        rewrite !length_app in Hlen. lia.
    + destruct (import_text_shape x Hx) as (h & q & Ex & _ & Hq).
      destruct (all_typed_keeps x Hq s1 o H2) as (o' & -> & Ho').
      apply (CT_import x b s o' Hx Hb).
      apply (IH (b :: s) s1 o'); [|exact H0 | exact Ho'].
      rewrite Ex, length_app in Hlen. cbn [length] in Hlen.
      cbn [length]. lia.
Qed.

(** C9: whatever the input, the text [fix_any_types] produces holds no
    [) as any;], and it is the input in which every [) as any;] is replaced
    by a cast to one of the response types, [ErrorResponse],
    [SuccessResponse] or [PingResponse], or to the catch-all
    [SuccessResponse | ErrorResponse]: apart from the texts the import step
    puts in, in front of a closing brace or a line feed, every other
    character is kept, in its place. *)
Theorem C9_every_cast_typed (t : text) :
  contains as_any (fix_any_types_text t) = false
  /\ casts_typed t (fix_any_types_text t).
Proof.
  assert (Hc : contains as_any (fix_any_types_text t) = false).
  { unfold fix_any_types_text.
    apply (sub_lit_no_occurrence 41 (T " as any;")
             (T " as SuccessResponse | ErrorResponse;")).
    - intros c. reflexivity.
    - vm_compute. reflexivity.
    - vm_compute. reflexivity.
    - intros o. reflexivity. }
  split; [exact Hc|].
  apply (imports_then_casts_n (length t + length (add_import t)) t
           (add_import t)); [lia | apply add_import_added|].
  apply typed_all; [|exact Hc].
  unfold fix_any_types_text. apply casts_typed_from.
Qed.

(** The relation at work: a cast with status 404, a cast with status 200, a
    cast no pattern knows, and an import of the types to extend. *)
Example casts_typed_example :
  fix_any_types_text
    (T "import type { Env } from '../../src/types/index.js';" ++ nl
     ++ T "const a = (await res.json()) as any;" ++ nl
     ++ T "expect(res.status).toBe(404);" ++ nl
     ++ T "const b = f(x) as any;")
  = T "import type { Env , SuccessResponse, ErrorResponse, PingResponse } from '../../src/types/index.js';" ++ nl
    ++ T "const a = (await res.json()) as ErrorResponse;" ++ nl
    ++ T "expect(res.status).toBe(404);" ++ nl
    ++ T "const b = f(x) as SuccessResponse | ErrorResponse;".
Proof. vm_compute. reflexivity. Qed.
(** *** [fix-all-lint.py] only removes *)





End Props.
